(** * Narrated-posts pipeline: a shallow embedding of [main.py]

    The program fetches text posts, synthesises one audio clip per accepted
    post, remembers the identifiers it has handled in a JSON file and renders a
    static HTML page.  This development embeds its functions one by one
    ([sanitize_filename], [load_processed_posts], [save_processed_posts],
    [generate_tts], [fetch_and_process_posts], [generate_html]) and proves the
    properties its specification states about them.

    Layout.  Part I is the program: its constants, its functions and the
    library functions they call, in the order of the source.  Part II is the
    vocabulary in which the properties are stated and the sample data of the
    examples.  Part III holds the properties the specification states, with
    their proofs; Part IV holds further properties of the same functions.

    Conventions.  A Python [str] is a list of code points ([N]); [len] is
    [length], a slice [s[:n]] is [take n s].  The outside world (files on disk,
    the speech service, the clock) is an explicit [world] value threaded
    through the functions that touch it. *)

From Stdlib Require Import NArith ZArith List String Ascii Lia Permutation Sorted.
From stdpp Require Import base option list sets gmap.
Import ListNotations.

Set Warnings "-register-all,-clear-no-such-hyp,-abstract-large-number".

Local Open Scope N_scope.

(** * Part I: the program *)

(** ** Python strings *)

(** A Python string: the list of its code points. *)
Abbreviation str := (list N).

(** A literal of the source, character by character. *)
Fixpoint lit (s : string) : str :=
  match s with
  | EmptyString => []
  | String a rest => N_of_ascii a :: lit rest
  end.

(** The double quote, which the literals below never contain. *)
Definition dq : str := [34].

Definition nl : str := [10].

(** ** Exceptions *)

(** The exceptions that can leave a function of the program. *)
Inductive exn : Type :=
  | TypeError
  | ValueError
  | RecursionError
  | UnicodeDecodeError
  | UnicodeEncodeError
  | OverflowError
  | OSError.

Inductive result (A : Type) : Type :=
  | Returned (a : A)
  | Raised (e : exn).

Arguments Returned {A} a.
Arguments Raised {A} e.

(** ** Configuration (module constants of [main.py]) *)

Definition TARGET_SUBREDDIT : str := lit "SluttyConfessions".

Definition POST_LIMIT : nat := 10.

Definition MIN_TEXT_LENGTH : nat := 50.

Definition MAX_TEXT_LENGTH : nat := 5000.

Definition AUDIO_DIR : str := lit "audio".

Definition HTML_FILE : str := lit "index.html".

Definition HISTORY_FILE : str := lit "processed_posts.json".

(** ** [sanitize_filename] *)

Definition underscore : N := 95.

(** The character class [a-zA-Z0-9_\-\.] of the first substitution. *)
Definition filename_char (c : N) : bool :=
  ((97 <=? c) && (c <=? 122)) || ((65 <=? c) && (c <=? 90))
  || ((48 <=? c) && (c <=? 57))
  || (c =? underscore) || (c =? 45) || (c =? 46).

(** [re.sub(r'[^a-zA-Z0-9_\-\.]', '_', name)]: every code point outside the
    class becomes an underscore. *)
Definition replace_invalid (name : str) : str :=
  map (fun c => if filename_char c then c else underscore) name.

(** [re.sub(r'_+', '_', name)]: each maximal run of underscores becomes one
    underscore; an underscore that is followed by another one is dropped, so
    the last of a run is the one that stays. *)
Fixpoint collapse_underscores (name : str) : str :=
  match name with
  | [] => []
  | c :: rest =>
      match rest with
      | c' :: _ =>
          if (c =? underscore) && (c' =? underscore)
          then collapse_underscores rest
          else c :: collapse_underscores rest
      | [] => [c]
      end
  end.

(** [name.lstrip('_')] and [name.strip('_')]. *)
Fixpoint lstrip_underscores (name : str) : str :=
  match name with
  | [] => []
  | c :: rest => if c =? underscore then lstrip_underscores rest else name
  end.

Definition strip_underscores (name : str) : str :=
  reverse (lstrip_underscores (reverse (lstrip_underscores name))).

(** The name before the final slice: the first three steps of the function. *)
Definition cleaned (name : str) : str :=
  strip_underscores (collapse_underscores (replace_invalid name)).

Definition sanitize_filename (name : str) : str :=
  take 100 (cleaned name).

(** ** The JSON text of the store

    [json.dump] and [json.load] are the standard library's; the store calls
    them with their defaults.  The model below follows the library's encoder
    for a list of strings ([ensure_ascii=True], separators [", "]) and its
    decoder for any text: the scanner tries a string, an object, an array, the
    three literals, a number, then [NaN], [Infinity] and [-Infinity].  Numbers
    are kept as the text that denotes them.  Two exceptions of the decoder
    are not its [JSONDecodeError]: the conversion of an integer of more than
    4300 digits raises [ValueError], and arrays and objects nested deeper than
    the interpreter allows raise [RecursionError]. *)

Inductive json : Type :=
  | JNull
  | JBool (b : bool)
  | JNum (literal : str)
  | JStr (s : str)
  | JArr (items : list json)
  | JObj (members : list (str * json)).

Definition backslash : N := 92.

(** *** Encoder *)

Definition hexdigit (d : N) : N := if d <? 10 then 48 + d else 87 + d.

(** ['{0:04x}'.format(n)] for [n < 65536]. *)
Definition hex4 (n : N) : str :=
  [hexdigit (n / 4096 mod 16); hexdigit (n / 256 mod 16);
   hexdigit (n / 16 mod 16); hexdigit (n mod 16)].

(** One character of a string as [encode_basestring_ascii] writes it: the
    short escapes, printable ASCII as it is, [\uXXXX] below 0x10000 and a
    surrogate pair above (high half [0xd800 | (v >> 10)], low half
    [0xdc00 | (v & 0x3ff)] for [v = c - 0x10000]). *)
Definition escape_char (c : N) : str :=
  if c =? 34 then [backslash; 34]
  else if c =? backslash then [backslash; backslash]
  else if c =? 10 then [backslash; 110]
  else if c =? 13 then [backslash; 114]
  else if c =? 9 then [backslash; 116]
  else if c =? 8 then [backslash; 98]
  else if c =? 12 then [backslash; 102]
  else if (32 <=? c) && (c <=? 126) then [c]
  else if c <? 65536 then backslash :: 117 :: hex4 c
  else
    let v := c - 65536 in
    (backslash :: 117 :: hex4 (55296 + v / 1024))
    ++ (backslash :: 117 :: hex4 (56320 + v mod 1024)).

Definition encode_string (s : str) : str :=
  dq ++ concat (map escape_char s) ++ dq.

Fixpoint encode_items (l : list str) : str :=
  match l with
  | [] => []
  | [s] => encode_string s
  | s :: rest => encode_string s ++ lit ", " ++ encode_items rest
  end.

(** [json.dumps(l)] for a list of strings. *)
Definition json_dumps (l : list str) : str :=
  lit "[" ++ encode_items l ++ lit "]".

(** *** Decoder *)

Definition is_ws (c : N) : bool :=
  (c =? 32) || (c =? 9) || (c =? 10) || (c =? 13).

Fixpoint skip_ws (s : str) : str :=
  match s with
  | c :: rest => if is_ws c then skip_ws rest else s
  | [] => []
  end.

Definition is_digit (c : N) : bool := (48 <=? c) && (c <=? 57).

Definition hexval (c : N) : option N :=
  if is_digit c then Some (c - 48)
  else if (97 <=? c) && (c <=? 102) then Some (c - 87)
  else if (65 <=? c) && (c <=? 70) then Some (c - 55)
  else None.

Definition hex4_value (a b c d : N) : option N :=
  match hexval a, hexval b, hexval c, hexval d with
  | Some x, Some y, Some z, Some w => Some (((x * 16 + y) * 16 + z) * 16 + w)
  | _, _, _, _ => None
  end.

Definition is_high_surrogate (u : N) : bool := (55296 <=? u) && (u <=? 56319).

Definition is_low_surrogate (u : N) : bool := (56320 <=? u) && (u <=? 57343).

Definition join_surrogates (hi lo : N) : N :=
  65536 + ((hi - 55296) * 1024 + (lo - 56320)).

(** The decoder's table of one-letter escapes. *)
Definition unescape (e : N) : option N :=
  if e =? 34 then Some 34
  else if e =? backslash then Some backslash
  else if e =? 47 then Some 47
  else if e =? 98 then Some 8
  else if e =? 102 then Some 12
  else if e =? 110 then Some 10
  else if e =? 114 then Some 13
  else if e =? 116 then Some 9
  else None.

Definition consume {A B : Type} (x : A) (r : option (list A * B)) : option (list A * B) :=
  match r with
  | Some (l, rest) => Some (x :: l, rest)
  | None => None
  end.

(** What decoding gives: a value, the decoder's [JSONDecodeError], or an
    exception of another kind. *)
Inductive decoded (A : Type) : Type :=
  | Value (a : A)
  | DecodeError
  | Escapes (e : exn).

Arguments Value {A} a.
Arguments DecodeError {A}.
Arguments Escapes {A} e.

Definition prepend {A B : Type} (x : A) (r : decoded (list A * B))
  : decoded (list A * B) :=
  match r with
  | Value (l, rest) => Value (x :: l, rest)
  | DecodeError => DecodeError
  | Escapes e => Escapes e
  end.

(** [scanstring], entered after the opening quote, in strict mode: the text of
    the string and what follows its closing quote, or [None] for the
    decoder's error. *)
Fixpoint scanstring (s : str) : option (str * str) :=
  match s with
  | [] => None
  | c :: rest =>
      if c =? 34 then Some ([], rest)
      else if c =? backslash then
        match rest with
        | [] => None
        | e :: rest1 =>
            if e =? 117 then
              match rest1 with
              | h1 :: h2 :: h3 :: h4 :: rest2 =>
                  match hex4_value h1 h2 h3 h4 with
                  | None => None
                  | Some u =>
                      if is_high_surrogate u then
                        match rest2 with
                        | b :: e' :: l1 :: l2 :: l3 :: l4 :: rest3 =>
                            if (b =? backslash) && (e' =? 117) then
                              match hex4_value l1 l2 l3 l4 with
                              | None => None
                              | Some u2 =>
                                  if is_low_surrogate u2
                                  then consume (join_surrogates u u2) (scanstring rest3)
                                  else consume u (scanstring rest2)
                              end
                            else consume u (scanstring rest2)
                        | _ => consume u (scanstring rest2)
                        end
                      else consume u (scanstring rest2)
                  end
              | _ => None
              end
            else
              match unescape e with
              | Some c' => consume c' (scanstring rest1)
              | None => None
              end
        end
      else if c <? 32 then None
      else consume c (scanstring rest)
  end.

Fixpoint span_digits (s : str) : str * str :=
  match s with
  | c :: rest =>
      if is_digit c then let (ds, r) := span_digits rest in (c :: ds, r)
      else ([], s)
  | [] => ([], [])
  end.

(** The decoder's number pattern, matched at the start of [s]: an optional
    minus sign and either [0] or a non-zero digit with any digits after it;
    then, each optional, a dot with at least one digit and an exponent letter
    with an optional sign and at least one digit.  The result is the three
    parts of the text matched (integer, fraction, exponent) and the rest. *)
Definition match_integer (s : str) : option (str * str) :=
  let (sign, s1) :=
    match s with
    | c :: r => if c =? 45 then ([c], r) else ([], s)
    | [] => ([], s)
    end in
  match s1 with
  | c :: r =>
      if c =? 48 then Some (sign ++ [c], r)
      else if is_digit c then
        let (ds, r') := span_digits r in Some (sign ++ c :: ds, r')
      else None
  | [] => None
  end.

Definition match_fraction (s : str) : str * str :=
  match s with
  | c :: r =>
      if c =? 46 then
        match span_digits r with
        | ([], _) => ([], s)
        | (ds, r') => (c :: ds, r')
        end
      else ([], s)
  | [] => ([], s)
  end.

Definition match_exponent (s : str) : str * str :=
  match s with
  | c :: r =>
      if (c =? 101) || (c =? 69) then
        let (sign, r1) :=
          match r with
          | g :: r0 => if (g =? 43) || (g =? 45) then ([g], r0) else ([], r)
          | [] => ([], r)
          end in
        match span_digits r1 with
        | ([], _) => ([], s)
        | (ds, r') => (c :: sign ++ ds, r')
        end
      else ([], s)
  | [] => ([], s)
  end.

Definition match_number (s : str) : option (str * str * str * str) :=
  match match_integer s with
  | None => None
  | Some (i, r) =>
      let (f, r1) := match_fraction r in
      let (e, r2) := match_exponent r1 in
      Some (i, f, e, r2)
  end.

(** [sys.int_info.default_max_str_digits]. *)
Definition INT_MAX_STR_DIGITS : nat := 4300.

(** The digits of an integer literal, its sign apart. *)
Definition int_digits (i : str) : nat :=
  match i with
  | c :: r => if c =? 45 then length r else length i
  | [] => O
  end.

(** The conversion of a number that was matched: [float] when it has a
    fraction or an exponent, [int] otherwise, which refuses a text of more
    than 4300 digits with [ValueError]. *)
Definition convert_number (i f e : str) : decoded json :=
  match f, e with
  | [], [] =>
      if (INT_MAX_STR_DIGITS <? int_digits i)%nat then Escapes ValueError
      else Value (JNum i)
  | _, _ => Value (JNum (i ++ f ++ e))
  end.

Fixpoint starts_with (p s : str) : bool :=
  match p, s with
  | [], _ => true
  | a :: p', b :: s' => (a =? b) && starts_with p' s'
  | _ :: _, [] => false
  end.

(** The loops of [JSONArray] and [JSONObject] after the look-ahead for the
    empty case; [scan] is the scanner for the values inside. *)
Fixpoint array_items (n : nat) (scan : str -> decoded (json * str)) (s : str)
  : decoded (list json * str) :=
  match n with
  | O => DecodeError
  | S n' =>
      match scan s with
      | DecodeError => DecodeError
      | Escapes e => Escapes e
      | Value (v, r) =>
          match skip_ws r with
          | c :: r' =>
              if c =? 93 then Value ([v], r')
              else if c =? 44 then prepend v (array_items n' scan (skip_ws r'))
              else DecodeError
          | [] => DecodeError
          end
      end
  end.

Fixpoint object_members (n : nat) (scan : str -> decoded (json * str)) (s : str)
  : decoded (list (str * json) * str) :=
  match n with
  | O => DecodeError
  | S n' =>
      match s with
      | q :: r =>
          if q =? 34 then
            match scanstring r with
            | None => DecodeError
            | Some (key, r1) =>
                match skip_ws r1 with
                | c1 :: r2 =>
                    if c1 =? 58 then
                      match scan (skip_ws r2) with
                      | DecodeError => DecodeError
                      | Escapes e => Escapes e
                      | Value (v, r3) =>
                          match skip_ws r3 with
                          | c2 :: r4 =>
                              if c2 =? 125 then Value ([(key, v)], r4)
                              else if c2 =? 44
                              then prepend (key, v)
                                     (object_members n' scan (skip_ws r4))
                              else DecodeError
                          | [] => DecodeError
                          end
                      end
                    else DecodeError
                | [] => DecodeError
                end
            end
          else DecodeError
      | [] => DecodeError
      end
  end.

(** [scan_once]: one JSON value at the start of [s].  [depth] is the number
    of arrays and objects inside one another that the interpreter still
    lets the decoder enter; entering one more raises [RecursionError].  The
    fuel bounds the recursion of the definition; the length of the text is
    always enough. *)
Fixpoint scan_once (fuel depth : nat) (s : str) : decoded (json * str) :=
  match fuel with
  | O => DecodeError
  | S n =>
      match s with
      | [] => DecodeError
      | c :: rest =>
          if c =? 34 then
            match scanstring rest with
            | Some (v, r) => Value (JStr v, r)
            | None => DecodeError
            end
          else if c =? 123 then
            match depth with
            | O => Escapes RecursionError
            | S d =>
                match skip_ws rest with
                | c' :: r =>
                    if c' =? 125 then Value (JObj [], r)
                    else
                      match object_members n (scan_once n d) (c' :: r) with
                      | Value (kvs, r') => Value (JObj kvs, r')
                      | DecodeError => DecodeError
                      | Escapes e => Escapes e
                      end
                | [] => DecodeError
                end
            end
          else if c =? 91 then
            match depth with
            | O => Escapes RecursionError
            | S d =>
                match skip_ws rest with
                | c' :: r =>
                    if c' =? 93 then Value (JArr [], r)
                    else
                      match array_items n (scan_once n d) (c' :: r) with
                      | Value (vs, r') => Value (JArr vs, r')
                      | DecodeError => DecodeError
                      | Escapes e => Escapes e
                      end
                | [] => DecodeError
                end
            end
          else if starts_with (lit "null") s then Value (JNull, drop 4 s)
          else if starts_with (lit "true") s then Value (JBool true, drop 4 s)
          else if starts_with (lit "false") s then Value (JBool false, drop 5 s)
          else
            match match_number s with
            | Some (i, f, e, r) =>
                match convert_number i f e with
                | Value v => Value (v, r)
                | DecodeError => DecodeError
                | Escapes x => Escapes x
                end
            | None =>
                if starts_with (lit "NaN") s then Value (JNum (lit "NaN"), drop 3 s)
                else if starts_with (lit "Infinity") s
                then Value (JNum (lit "Infinity"), drop 8 s)
                else if starts_with (lit "-Infinity") s
                then Value (JNum (lit "-Infinity"), drop 9 s)
                else DecodeError
            end
      end
  end.

(** [json.loads(s)]: leading blanks, one value, trailing blanks, nothing
    else.  [limit] is the depth of nesting the interpreter allows. *)
Definition json_loads (limit : positive) (s : str) : decoded json :=
  match scan_once (S (length s)) (Pos.to_nat limit) (skip_ws s) with
  | Value (v, rest) =>
      match skip_ws rest with
      | [] => Value v
      | _ :: _ => DecodeError
      end
  | DecodeError => DecodeError
  | Escapes e => Escapes e
  end.

(** ** The outside world *)

(** A file as the program can meet it: one that cannot be opened or read
    ([IOError]), one whose bytes are not text in the locale's encoding
    (reading it raises [UnicodeDecodeError]), or one that holds text. *)
Inductive file : Type :=
  | Unreadable
  | Binary
  | Text (content : str).

(** The world the program runs in: the files that exist, the paths that
    cannot be written, whether the audio directory can be made, the replies
    the speech service will give to the coming calls ([true]: the clip is
    saved), the calls made so far (text, path), and, for each call by its
    number, whether its failure leaves a file behind: [tts.save] opens its
    target for writing before it sends the request, so a request that fails
    leaves an empty file, while a failure before that leaves none.  The last
    field is the depth of nesting that the interpreter's recursion limit
    leaves to the JSON decoder. *)
Record world : Type := World {
  disk : gmap str file;
  readonly : gset str;
  audio_dir_ok : bool;
  tts_replies : list bool;
  tts_calls : list (str * str);
  tts_leftovers : nat -> bool;
  recursion_limit : positive
}.

(** [os.path.exists(path)]. *)
Definition path_exists (w : world) (path : str) : bool :=
  bool_decide (is_Some (disk w !! path)).

(** What a completed write to [path] leaves on disk.  Writing does not
    change who may read the file: a file that could not be read before the
    write cannot be read after it. *)
Definition put (path : str) (f : file) (d : gmap str file) : gmap str file :=
  match d !! path with
  | Some Unreadable => d
  | _ => <[path := f]> d
  end.

Definition write_file (path : str) (f : file) (w : world) : world :=
  World (put path f (disk w)) (readonly w) (audio_dir_ok w)
        (tts_replies w) (tts_calls w) (tts_leftovers w) (recursion_limit w).

(** ** The deduplication store *)

(** The value of [set(...)]: a set of strings, or a set that has a member
    which is not a string (a number, a boolean or [None]). *)
Inductive pyset : Type :=
  | Ids (ids : gset str)
  | NotOnlyStrings.

Definition hashable (v : json) : bool :=
  match v with
  | JArr _ | JObj _ => false
  | _ => true
  end.

Definition as_string (v : json) : option str :=
  match v with
  | JStr s => Some s
  | _ => None
  end.

(** [set(v)] for a decoded value [v]: the members of a list (a list or a
    dict among them is unhashable), the characters of a string, the keys of
    a dict; anything else is not iterable. *)
Definition python_set (v : json) : result pyset :=
  match v with
  | JArr items =>
      if forallb hashable items then
        match mapM as_string items with
        | Some l => Returned (Ids (list_to_set l))
        | None => Returned NotOnlyStrings
        end
      else Raised TypeError
  | JStr s => Returned (Ids (list_to_set (map (fun c => [c]) s)))
  | JObj members => Returned (Ids (list_to_set (map fst members)))
  | JNull | JBool _ | JNum _ => Raised TypeError
  end.

(** [load_processed_posts]: the handler catches [json.JSONDecodeError] and
    [IOError], nothing else. *)
Definition load_processed_posts (w : world) : result pyset :=
  match disk w !! HISTORY_FILE with
  | None => Returned (Ids ∅)
  | Some Unreadable => Returned (Ids ∅)
  | Some Binary => Raised UnicodeDecodeError
  | Some (Text content) =>
      match json_loads (recursion_limit w) content with
      | DecodeError => Returned (Ids ∅)
      | Escapes e => Raised e
      | Value v => python_set v
      end
  end.

Section Store.

(** [list(processed_ids)]: the order in which Python iterates over a set
    is not specified, so it is a parameter; it lists the members once
    each. *)
Variable set_order : gset str -> list str.

(** [save_processed_posts]: an [IOError] is caught and the file left as it
    was. *)
Definition save_processed_posts (processed_ids : gset str) (w : world) : world :=
  if bool_decide (HISTORY_FILE ∈ readonly w) then w
  else write_file HISTORY_FILE (Text (json_dumps (set_order processed_ids))) w.

End Store.

(** ** [generate_tts] *)

Definition truncation_suffix : str := lit "... [Content truncated due to length]".

(** [os.path.join(a, b)]. *)
Definition path_join (a b : str) : str :=
  if starts_with (lit "/") b then b
  else
    match last a with
    | None => b
    | Some c => if c =? 47 then a ++ b else a ++ lit "/" ++ b
    end.

(** The text handed to the speech service: the first lines of the function. *)
Definition narration (text : str) : str :=
  if (MAX_TEXT_LENGTH <? length text)%nat
  then take MAX_TEXT_LENGTH text ++ truncation_suffix
  else text.

(** The disk after an invocation of the speech service that failed: with
    an empty file at the target when the failure came after the target was
    opened (an existing clip is cut to nothing), as it was otherwise. *)
Definition failed_save (filepath : str) (w : world) : gmap str file :=
  if tts_leftovers w (length (tts_calls w))
  then put filepath (Text []) (disk w)
  else disk w.

(** One invocation of the speech service, [gTTS(text=...)] and
    [tts.save(filepath)]: the call is recorded, the next reply consumed; on
    success the clip is on disk, on failure (an exception) the target may be
    left behind empty. *)
Definition synthesize (text filepath : str) (w : world) : bool * world :=
  let calls := tts_calls w ++ [(text, filepath)] in
  match tts_replies w with
  | true :: replies =>
      (true, World (put filepath Binary (disk w)) (readonly w)
                   (audio_dir_ok w) replies calls (tts_leftovers w)
                   (recursion_limit w))
  | false :: replies =>
      (false, World (failed_save filepath w) (readonly w) (audio_dir_ok w)
                    replies calls (tts_leftovers w) (recursion_limit w))
  | [] =>
      (false, World (failed_save filepath w) (readonly w) (audio_dir_ok w)
                    [] calls (tts_leftovers w) (recursion_limit w))
  end.

(** The loop [for attempt in range(3)], with the [return None] after it. *)
Fixpoint tts_attempts (attempts : list nat) (text filepath filename : str)
    (w : world) : option str * world :=
  match attempts with
  | [] => (None, w)
  | attempt :: rest =>
      let (ok, w') := synthesize text filepath w in
      if ok then (Some filename, w')
      else if (attempt =? 2)%nat then (None, w')
      else tts_attempts rest text filepath filename w'
  end.

(** [generate_tts(text, filename)]: the file name, or [None] after three
    failures; making the audio directory is outside the [try] and its
    failure leaves the function as an exception. *)
Definition generate_tts (text filename : str) (w : world)
  : result (option str) * world :=
  let text := narration text in
  if audio_dir_ok w then
    let filepath := path_join AUDIO_DIR filename in
    let (r, w') := tts_attempts (seq 0 3) text filepath filename w in
    (Returned r, w')
  else (Raised OSError, w).

(** ** [fetch_and_process_posts] *)

(** A submission as the forum API hands it over. *)
Record submission : Type := Submission {
  sub_id : str;
  title : str;
  selftext : str;
  is_self : bool;
  stickied : bool;
  created_utc : Z;
  permalink : str
}.

(** An entry of [posts_data]: the keys [id], [title], [text], [audio_file],
    [date] and [url]; the renderer copes with a missing [date] or [url]. *)
Record post : Type := Post {
  post_id : str;
  post_title : str;
  post_text : str;
  post_audio_file : str;
  post_date : option Z;
  post_url : option str
}.

(** [c.isspace()]. *)
Definition is_space (c : N) : bool :=
  ((9 <=? c) && (c <=? 13)) || ((28 <=? c) && (c <=? 32))
  || (c =? 133) || (c =? 160) || (c =? 5760)
  || ((8192 <=? c) && (c <=? 8202))
  || (c =? 8232) || (c =? 8233) || (c =? 8239) || (c =? 8287) || (c =? 12288).

Fixpoint lstrip (s : str) : str :=
  match s with
  | [] => []
  | c :: rest => if is_space c then lstrip rest else s
  end.

(** [s.strip()]. *)
Definition strip (s : str) : str := reverse (lstrip (reverse (lstrip s))).

(** The test that sends the loop to [continue]. *)
Definition skipped (x : submission) (processed_ids : gset str) : bool :=
  bool_decide (sub_id x ∈ processed_ids)
  || stickied x
  || negb (is_self x)
  || match selftext x with [] => true | _ :: _ => false end
  || (length (selftext x) <? MIN_TEXT_LENGTH)%nat.

Definition clean_title (x : submission) : str := strip (title x).

Definition full_text (x : submission) : str :=
  lit "Title: " ++ clean_title x ++ lit ". Story: " ++ selftext x.

Definition audio_filename (x : submission) : str :=
  (sub_id x ++ lit "_" ++ sanitize_filename (clean_title x)) ++ lit ".mp3".

Definition audio_path (x : submission) : str :=
  path_join AUDIO_DIR (audio_filename x).

(** The dictionary appended to [posts_data]. *)
Definition accepted (x : submission) (audio_file : str) : post :=
  Post (sub_id x) (clean_title x) (selftext x) audio_file
       (Some (created_utc x))
       (Some (lit "https://www.reddit.com" ++ permalink x)).

(** The variables of the loop: the list being built, the set being updated
    in place, and the world. *)
Record run : Type := Run {
  posts_data : list post;
  processed_ids : gset str;
  env : world
}.

Definition accept (x : submission) (audio_file : str) (posts : list post)
    (ids : gset str) (w : world) : run :=
  Run (posts ++ [accepted x audio_file]) ({[sub_id x]} ∪ ids) w.

(** One turn of the loop ends in the next turn or, when an exception
    reaches the handler around the loop, in the end of the loop. *)
Inductive turn : Type :=
  | Next (st : run)
  | Stop (st : run).

Definition after (t : turn) : run :=
  match t with
  | Next st => st
  | Stop st => st
  end.

(** The body of the loop for one submission. *)
Definition process_submission (x : submission) (st : run) : turn :=
  if skipped x (processed_ids st) then Next st
  else if path_exists (env st) (audio_path x)
  then Next (accept x (audio_filename x) (posts_data st) (processed_ids st) (env st))
  else
    match generate_tts (full_text x) (audio_filename x) (env st) with
    | (Returned (Some (c :: f)), w') =>
        Next (accept x (c :: f) (posts_data st) (processed_ids st) w')
    | (Returned (Some []), w') | (Returned None, w') =>
        Next (Run (posts_data st) (processed_ids st) w')
    | (Raised _, w') => Stop (Run (posts_data st) (processed_ids st) w')
    end.

Fixpoint process_all (items : list submission) (st : run) : run :=
  match items with
  | [] => st
  | x :: rest =>
      match process_submission x st with
      | Next st' => process_all rest st'
      | Stop st' => st'
      end
  end.

(** [fetch_and_process_posts(reddit, processed_ids)].  [hot] is what the
    forum's hot listing yields before it ends or raises (either way the loop
    is over and the function returns what it has); [limit=POST_LIMIT] keeps
    the first ten. *)
Definition fetch_and_process_posts (hot : list submission)
    (ids : gset str) (w : world) : run :=
  process_all (take POST_LIMIT hot) (Run [] ids w).

(** ** [generate_html] *)

(** A local date and time, as [datetime] holds it. *)
Record datetime : Type := Datetime {
  year : N;
  month : N;
  day : N;
  hour : N;
  minute : N;
  second : N
}.

Fixpoint uint_digits (d : Decimal.uint) : str :=
  match d with
  | Decimal.Nil => []
  | Decimal.D0 d' => 48 :: uint_digits d'
  | Decimal.D1 d' => 49 :: uint_digits d'
  | Decimal.D2 d' => 50 :: uint_digits d'
  | Decimal.D3 d' => 51 :: uint_digits d'
  | Decimal.D4 d' => 52 :: uint_digits d'
  | Decimal.D5 d' => 53 :: uint_digits d'
  | Decimal.D6 d' => 54 :: uint_digits d'
  | Decimal.D7 d' => 55 :: uint_digits d'
  | Decimal.D8 d' => 56 :: uint_digits d'
  | Decimal.D9 d' => 57 :: uint_digits d'
  end.

(** A number in decimal, filled with zeros on the left up to [width]. *)
Definition zero_padded (width : nat) (n : N) : str :=
  let ds := uint_digits (N.to_uint n) in
  replicate (width - length ds) 48 ++ ds.

(** [d.strftime("%Y-%m-%d %H:%M")] and [d.strftime("%Y-%m-%d %H:%M:%S")].
    The C library the program runs on writes [%Y] as the plain decimal year,
    without zeros in front of a year below 1000; the other fields have two
    digits. *)
Definition strftime_minutes (d : datetime) : str :=
  uint_digits (N.to_uint (year d)) ++ lit "-" ++ zero_padded 2 (month d) ++ lit "-"
  ++ zero_padded 2 (day d) ++ lit " " ++ zero_padded 2 (hour d) ++ lit ":"
  ++ zero_padded 2 (minute d).

Definition strftime_seconds (d : datetime) : str :=
  strftime_minutes d ++ lit ":" ++ zero_padded 2 (second d).

(** The f-string that opens the page, line by line. *)
Definition page_head : str := concat [
  lit "<!DOCTYPE html>" ++ nl;
  lit "<html lang=" ++ dq ++ lit "en" ++ dq ++ lit ">" ++ nl;
  lit "<head>" ++ nl;
  lit "    <meta charset=" ++ dq ++ lit "UTF-8" ++ dq ++ lit ">" ++ nl;
  lit "    <meta name=" ++ dq ++ lit "viewport" ++ dq ++ lit " content=" ++ dq ++ lit "width=device-width, initial-scale=1.0" ++ dq ++ lit ">" ++ nl;
  lit "    <title>r/" ++ TARGET_SUBREDDIT ++ lit " Narrated</title>" ++ nl;
  lit "    <style>" ++ nl;
  lit "        body { " ++ nl;
  lit "            font-family: 'Segoe UI', Tahoma, Geneva, Verdana, sans-serif; " ++ nl;
  lit "            line-height: 1.6; " ++ nl;
  lit "            padding: 20px; " ++ nl;
  lit "            max-width: 800px; " ++ nl;
  lit "            margin: auto; " ++ nl;
  lit "            background-color: #f5f5f5; " ++ nl;
  lit "            color: #333; " ++ nl;
  lit "        }" ++ nl;
  lit "        header { " ++ nl;
  lit "            text-align: center; " ++ nl;
  lit "            margin-bottom: 30px; " ++ nl;
  lit "            padding-bottom: 20px; " ++ nl;
  lit "            border-bottom: 1px solid #ddd; " ++ nl;
  lit "        }" ++ nl;
  lit "        .post { " ++ nl;
  lit "            background-color: #fff; " ++ nl;
  lit "            border: 1px solid #ddd; " ++ nl;
  lit "            border-radius: 8px; " ++ nl;
  lit "            margin-bottom: 25px; " ++ nl;
  lit "            padding: 20px; " ++ nl;
  lit "            box-shadow: 0 2px 4px rgba(0,0,0,0.1); " ++ nl;
  lit "            transition: transform 0.2s ease; " ++ nl;
  lit "        }" ++ nl;
  lit "        .post:hover { " ++ nl;
  lit "            transform: translateY(-3px); " ++ nl;
  lit "            box-shadow: 0 4px 8px rgba(0,0,0,0.15); " ++ nl;
  lit "        }" ++ nl;
  lit "        h1 { " ++ nl;
  lit "            color: #2c3e50; " ++ nl;
  lit "        }" ++ nl;
  lit "        h2 { " ++ nl;
  lit "            margin-top: 0; " ++ nl;
  lit "            color: #3498db; " ++ nl;
  lit "            font-size: 1.5rem; " ++ nl;
  lit "        }" ++ nl;
  lit "        audio { " ++ nl;
  lit "            width: 100%; " ++ nl;
  lit "            margin: 15px 0; " ++ nl;
  lit "            border-radius: 30px; " ++ nl;
  lit "        }" ++ nl;
  lit "        details { " ++ nl;
  lit "            margin-top: 15px; " ++ nl;
  lit "            cursor: pointer; " ++ nl;
  lit "        }" ++ nl;
  lit "        summary { " ++ nl;
  lit "            font-weight: bold; " ++ nl;
  lit "            color: #555; " ++ nl;
  lit "            padding: 5px 0; " ++ nl;
  lit "        }" ++ nl;
  lit "        p { " ++ nl;
  lit "            white-space: pre-wrap; /* Preserve line breaks */ " ++ nl;
  lit "            margin-top: 10px; " ++ nl;
  lit "            line-height: 1.7; " ++ nl;
  lit "        }" ++ nl;
  lit "        .meta { " ++ nl;
  lit "            font-size: 0.85rem; " ++ nl;
  lit "            color: #888; " ++ nl;
  lit "            margin-top: 15px; " ++ nl;
  lit "            text-align: right; " ++ nl;
  lit "        }" ++ nl;
  lit "        .meta a { " ++ nl;
  lit "            color: #3498db; " ++ nl;
  lit "            text-decoration: none; " ++ nl;
  lit "        }" ++ nl;
  lit "        .meta a:hover { " ++ nl;
  lit "            text-decoration: underline; " ++ nl;
  lit "        }" ++ nl;
  lit "        footer { " ++ nl;
  lit "            text-align: center; " ++ nl;
  lit "            margin-top: 40px; " ++ nl;
  lit "            padding-top: 20px; " ++ nl;
  lit "            border-top: 1px solid #ddd; " ++ nl;
  lit "            font-size: 0.9rem; " ++ nl;
  lit "            color: #888; " ++ nl;
  lit "        }" ++ nl;
  lit "    </style>" ++ nl;
  lit "</head>" ++ nl;
  lit "<body>" ++ nl;
  lit "    <header>" ++ nl;
  lit "        <h1>r/" ++ TARGET_SUBREDDIT ++ lit " Narrated</h1>" ++ nl;
  lit "        <p>Latest posts with text-to-speech audio. Generated automatically.</p>" ++ nl;
  lit "    </header>" ++ nl
].

Definition no_posts_notice : str :=
  lit "<p>No new posts found matching criteria in this run.</p>".

(** The key of the sort: [x.get('date', 0)]. *)
Definition date_key (p : post) : Z := default 0%Z (post_date p).

(** [posts_data.sort(key=..., reverse=True)]: a stable sort, largest key
    first; records with equal keys keep the order they had. *)
Fixpoint insert_newest (p : post) (l : list post) : list post :=
  match l with
  | [] => [p]
  | q :: l' =>
      if (date_key p <? date_key q)%Z then q :: insert_newest p l'
      else p :: l
  end.

Definition sort_newest_first (l : list post) : list post :=
  foldr insert_newest [] l.

(** The last line of a block: the link to the source, when there is one. *)
Definition url_link (p : post) : str :=
  match post_url p with
  | Some u =>
      lit " | <a href=" ++ dq ++ u ++ dq ++ lit " target=" ++ dq ++ lit "_blank"
      ++ dq ++ lit " rel=" ++ dq ++ lit "noopener noreferrer" ++ dq
      ++ lit ">Original Post</a>"
  | None => []
  end.

(** The tag that opens the block of a post. *)
Definition block_open : str := lit "<div class=" ++ dq ++ lit "post" ++ dq.

(** The f-string that closes the page. *)
Definition page_foot (current_time : str) : str :=
  nl
  ++ lit "    <footer>" ++ nl
  ++ lit "        <p>Last updated: " ++ current_time ++ lit "</p>" ++ nl
  ++ lit "        <p>Content sourced from <a href=" ++ dq
  ++ lit "https://www.reddit.com/r/" ++ TARGET_SUBREDDIT ++ dq
  ++ lit " target=" ++ dq ++ lit "_blank" ++ dq ++ lit ">r/" ++ TARGET_SUBREDDIT
  ++ lit "</a></p>" ++ nl
  ++ lit "    </footer>" ++ nl
  ++ lit "</body>" ++ nl
  ++ lit "</html>" ++ nl.

Definition is_surrogate (c : N) : bool := (55296 <=? c) && (c <=? 57343).

(** What [datetime.fromtimestamp(t)] does: it gives a local date; or it
    raises [ValueError]; or, for a timestamp outside the range of the
    platform's [time_t] or [localtime], it raises [OverflowError] or
    [OSError]. *)
Inductive stamp : Type :=
  | Date (d : datetime)
  | Invalid
  | OutOfRange (e : exn).

Section Renderer.

(** [datetime.fromtimestamp], with the time zone of the machine. *)
Variable fromtimestamp : Z -> stamp.

(** The lines that format the date of a post: the empty string for a record
    without a date, the formatted date, [Unknown date] when the handler for
    [ValueError] and [TypeError] runs; an [OverflowError] or [OSError] is not
    caught and leaves the [try]. *)
Definition format_date (p : post) : result str :=
  match post_date p with
  | None => Returned []
  | Some t =>
      match fromtimestamp t with
      | Date d => Returned (strftime_minutes d)
      | Invalid => Returned (lit "Unknown date")
      | OutOfRange e => Raised e
      end
  end.

(** The value of [date_str] when the f-string of the post is reached, that
    is, when the formatting has returned. *)
Definition date_str (p : post) : str :=
  match format_date p with
  | Returned d => d
  | Raised _ => []
  end.

(** The f-string of one post. *)
Definition render_post (p : post) : str :=
  nl
  ++ (lit "    " ++ block_open ++ lit " id=" ++ dq ++ lit "post-" ++ post_id p
      ++ dq ++ lit ">" ++ nl)
  ++ (lit "        <h2>" ++ post_title p ++ lit "</h2>" ++ nl)
  ++ (lit "        <audio controls src=" ++ dq ++ AUDIO_DIR ++ lit "/"
      ++ post_audio_file p ++ dq ++ lit ">" ++ nl)
  ++ (lit "            Your browser does not support the audio element." ++ nl)
  ++ (lit "        </audio>" ++ nl)
  ++ (lit "        <details>" ++ nl)
  ++ (lit "            <summary>Show/Hide Text</summary>" ++ nl)
  ++ (lit "            <p>" ++ post_text p ++ lit "</p>" ++ nl)
  ++ (lit "        </details>" ++ nl)
  ++ (lit "        <div class=" ++ dq ++ lit "meta" ++ dq ++ lit ">" ++ nl)
  ++ (lit "            Posted: " ++ date_str p ++ nl)
  ++ (lit "            " ++ url_link p ++ nl)
  ++ (lit "        </div>" ++ nl)
  ++ (lit "    </div>" ++ nl).

(** The text of the page: [html_content] when the function writes it. *)
Definition html_content (posts_data : list post) (now : datetime) : str :=
  page_head
  ++ match posts_data with
     | [] => no_posts_notice
     | _ :: _ => concat (map render_post (sort_newest_first posts_data))
     end
  ++ page_foot (strftime_seconds now).

(** The exception that ends the loop over the sorted posts, if there is
    one: that of the first post, in the order of the loop, whose date cannot
    be formatted. *)
Fixpoint date_error (sorted : list post) : option exn :=
  match sorted with
  | [] => None
  | p :: rest =>
      match format_date p with
      | Raised e => Some e
      | Returned _ => date_error rest
      end
  end.

(** [generate_html(posts_data)]: an exception that leaves the formatting of
    a date ends the function while the page is being put together, before
    the file is opened.  Otherwise: [True] when the page is written, [False]
    when the write raises [IOError]; a page that UTF-8 cannot encode leaves
    the function as [UnicodeEncodeError], after the file was opened for
    writing (and so emptied). *)
Definition generate_html (posts_data : list post) (now : datetime) (w : world)
  : result bool * world :=
  match date_error (sort_newest_first posts_data) with
  | Some e => (Raised e, w)
  | None =>
      let page := html_content posts_data now in
      if bool_decide (HTML_FILE ∈ readonly w) then (Returned false, w)
      else if existsb is_surrogate page
      then (Raised UnicodeEncodeError, write_file HTML_FILE (Text []) w)
      else (Returned true, write_file HTML_FILE (Text page) w)
  end.

End Renderer.

(** * Part II: the vocabulary of the properties *)

(** ** Shapes of strings *)

(** What the property list of the specification asks of a sanitised name. *)
Definition no_underscore_run (s : str) : Prop :=
  forall i : nat, ~ (s !! i = Some underscore /\ s !! S i = Some underscore).

Definition sanitized_spec (out : str) : Prop :=
  Forall (fun c => filename_char c = true) out
  /\ no_underscore_run out
  /\ head out <> Some underscore
  /\ last out <> Some underscore
  /\ (length out <= 100)%nat.

(** One string occurs inside another. *)
Definition occurs_in (s t : str) : Prop :=
  exists pre post, t = pre ++ s ++ post.

(** The index form of [no_underscore_run] and the form by decomposition say
    the same. *)
Definition run_free (s : str) : Prop :=
  forall l1 l2, s <> l1 ++ underscore :: underscore :: l2.

(** Two characters next to each other somewhere in a string. *)
Fixpoint has_pair (a b : N) (s : str) : bool :=
  match s with
  | [] => false
  | c :: rest =>
      match rest with
      | [] => false
      | c' :: _ => ((c =? a) && (c' =? b)) || has_pair a b rest
      end
  end.

Definition ends_with_char (a : N) (s : str) : bool :=
  match last s with
  | Some c => c =? a
  | None => false
  end.

Definition starts_with_char (b : N) (s : str) : bool :=
  match s with
  | c :: _ => c =? b
  | [] => false
  end.

(** ** Strings in the JSON text *)

(** The code points a Python string can hold. *)
Definition is_code_point (c : N) : bool := c <? 1114112.

(** A high surrogate directly followed by a low surrogate, somewhere in a
    string. *)
Fixpoint has_split_pair (s : str) : bool :=
  match s with
  | [] => false
  | c :: rest =>
      (is_high_surrogate c
       && match rest with
          | c' :: _ => is_low_surrogate c'
          | [] => false
          end)
      || has_split_pair rest
  end.

(** A string that the JSON text gives back as it was: a Python string
    without a high surrogate directly followed by a low one. *)
Definition json_stable (s : str) : Prop :=
  forallb is_code_point s = true /\ has_split_pair s = false.

(** A text that does not start with the escape of a low surrogate: what
    the decoder looks for after the escape of a high surrogate. *)
Definition no_low_escape (t : str) : Prop :=
  forall l1 l2 l3 l4 rest,
    t = backslash :: 117 :: l1 :: l2 :: l3 :: l4 :: rest ->
    exists u, hex4_value l1 l2 l3 l4 = Some u /\ is_low_surrogate u = false.

(** A string of two code points, a high surrogate and a low one. *)
Definition split_pair : str := [55357; 56832].

(** ** Turns of the loop *)

(** A turn of the loop either leaves the list and the set as they were, or
    accepts the submission: it passed the test, its record goes to the end of
    the list with the derived file name, and its identifier into the set. *)
Definition turn_accepts (x : submission) (st st' : run) : Prop :=
  skipped x (processed_ids st) = false
  /\ posts_data st' = posts_data st ++ [accepted x (audio_filename x)]
  /\ processed_ids st' = {[sub_id x]} ∪ processed_ids st.

Definition turn_skips (st st' : run) : Prop :=
  posts_data st' = posts_data st /\ processed_ids st' = processed_ids st.

(** A submission the test lets through, with respect to a set of
    identifiers. *)
Definition eligible (x : submission) (ids : gset str) : Prop :=
  (sub_id x ∉ ids)
  /\ stickied x = false
  /\ is_self x = true
  /\ selftext x <> []
  /\ (MIN_TEXT_LENGTH <= length (selftext x))%nat.

(** What the run adds to the list: records of eligible submissions of the
    listing, each with its identifier in the final set. *)
Definition added_by (items : list submission) (ids final : gset str)
    (p : post) : Prop :=
  post_id p ∈ final
  /\ exists x, x ∈ items /\ p = accepted x (audio_filename x) /\ eligible x ids.

(** ** Pages *)

Definition newer_or_same (p q : post) : Prop := (date_key q <= date_key p)%Z.

(** The page for no posts, around the time stamp of the footer. *)
Definition empty_page_before : str :=
  page_head ++ no_posts_notice ++ nl ++ lit "    <footer>" ++ nl
  ++ lit "        <p>Last updated: ".

Definition empty_page_after : str :=
  lit "</p>" ++ nl
  ++ lit "        <p>Content sourced from <a href=" ++ dq
  ++ lit "https://www.reddit.com/r/" ++ TARGET_SUBREDDIT ++ dq
  ++ lit " target=" ++ dq ++ lit "_blank" ++ dq ++ lit ">r/" ++ TARGET_SUBREDDIT
  ++ lit "</a></p>" ++ nl
  ++ lit "    </footer>" ++ nl
  ++ lit "</body>" ++ nl
  ++ lit "</html>" ++ nl.

(** ** Sample data *)

(** A title of 99 letters, an underscore and one more letter: the slice cuts
    right after the underscore. *)
Definition long_title : str := replicate 99 97 ++ lit "_b".

(** A world with nothing on disk, where every write succeeds, a call of
    the speech service that fails leaves its empty file behind, and the
    decoder can nest a thousand levels. *)
Definition fresh_world (replies : list bool) : world :=
  World ∅ ∅ true replies [] (fun _ => true) 1000.

Definition with_history (f : file) : world :=
  write_file HISTORY_FILE f (fresh_world []).

Definition story : str := replicate 60 115.

Definition sample (id_ : str) : submission :=
  Submission id_ (lit " A story ") story true false 1700000000 (lit "/r/x/" ++ id_).

(** The scenario of the specification: the store holds [abc123]; the
    listing yields a post [abc123] and a post [def456] with 60 characters of
    body text; the speech service answers the first call. *)

Definition scenario_hot : list submission :=
  [sample (lit "abc123"); sample (lit "def456")].

Definition scenario_run : run :=
  fetch_and_process_posts scenario_hot {[lit "abc123"]} (fresh_world [true]).

Definition scenario_post : post :=
  Post (lit "def456") (lit "A story") story (lit "def456_A_story.mp3")
       (Some 1700000000%Z) (Some (lit "https://www.reddit.com/r/x/def456")).

(** A title and a body with markup in them. *)
Definition markup_post : post :=
  Post (lit "def456") (lit "<b>Bold</b> & more") (lit "<script>alert(1)</script>")
       (lit "def456_b_Bold_b_more.mp3") (Some 1700000000%Z) None.

(** A record with a lone surrogate in its title. *)
Definition surrogate_post : post :=
  Post (lit "def456") [55357] story (lit "def456_.mp3") (Some 1700000000%Z) None.

(** A record dated far beyond the range of the platform's clock, and a
    platform that raises [OverflowError] for timestamps from 10^19 on (and
    whose dates are of no interest otherwise). *)
Definition far_post : post :=
  Post (lit "ghi789") (lit "Later") story (lit "ghi789_Later.mp3")
       (Some 100000000000000000000%Z) None.

Definition far_future (t : Z) : stamp :=
  if (10000000000000000000 <=? t)%Z then OutOfRange OverflowError else Invalid.

(** ** Vocabulary of the further properties *)

(** A character that survives sanitising as itself and is not an underscore:
    a letter, a digit, a dot or a hyphen. *)
Definition solid_char (c : N) : bool :=
  filename_char c && negb (c =? underscore).

(** What the test asks of a submission besides a fresh identifier. *)
Definition presentable (x : submission) : Prop :=
  stickied x = false
  /\ is_self x = true
  /\ selftext x <> []
  /\ (MIN_TEXT_LENGTH <= length (selftext x))%nat.

(** The speech service answers each of the next [n] calls. *)
Definition service_answers (n : nat) (w : world) : Prop :=
  audio_dir_ok w = true
  /\ Forall (fun b => b = true) (tts_replies w)
  /\ (n <= length (tts_replies w))%nat.

(** A record whose date the renderer can format. *)
Definition date_in_range (fromtimestamp : Z -> stamp) (p : post) : Prop :=
  forall t e, post_date p = Some t -> fromtimestamp t <> OutOfRange e.

(** A page that UTF-8 can encode. *)
Definition encodable (s : str) : Prop := existsb is_surrogate s = false.

(** A record all of whose strings UTF-8 can encode. *)
Definition post_encodable (p : post) : Prop :=
  encodable (post_id p)
  /\ encodable (post_title p)
  /\ encodable (post_text p)
  /\ encodable (post_audio_file p)
  /\ match post_url p with Some u => encodable u | None => True end.

(** * Part III: the properties *)

(** ** [sanitize_filename] *)

Example sanitize_example :
  sanitize_filename (lit "__My  first/post!! (part 2).txt__") = lit "My_first_post_part_2_.txt".
Proof. vm_compute. reflexivity. Qed.

(** *** Occurrences *)

Lemma occurs_in_refl s : occurs_in s s.
Proof. exists [], []. by rewrite app_nil_r. Qed.

Lemma occurs_in_trans s t u : occurs_in s t -> occurs_in t u -> occurs_in s u.
Proof.
  intros (a & b & ->) (c & d & ->).
  exists (c ++ a), (b ++ d). by rewrite <- !app_assoc.
Qed.

Lemma occurs_in_app_l s t u : occurs_in s t -> occurs_in s (t ++ u).
Proof.
  intros (a & b & ->). exists a, (b ++ u). by rewrite <- !app_assoc.
Qed.

Lemma occurs_in_app_r s t u : occurs_in s t -> occurs_in s (u ++ t).
Proof.
  intros (a & b & ->). exists (u ++ a), b. by rewrite <- !app_assoc.
Qed.

Lemma occurs_in_Forall (P : N -> Prop) s t :
  occurs_in s t -> Forall P t -> Forall P s.
Proof.
  intros (a & b & ->) H.
  apply Forall_app in H as [_ H]. by apply Forall_app in H as [H _].
Qed.

(** *** Runs of underscores *)

Lemma run_free_no_underscore_run s : run_free s -> no_underscore_run s.
Proof.
  intros Hs i [H1 H2].
  apply (Hs (take i s) (drop (S (S i)) s)).
  rewrite <- (take_drop i s) at 1. f_equal.
  rewrite (drop_S _ _ _ H1), (drop_S _ _ _ H2). reflexivity.
Qed.

Lemma run_free_occurs_in s t : occurs_in s t -> run_free t -> run_free s.
Proof.
  intros (a & b & ->) Ht l1 l2 ->.
  apply (Ht (a ++ l1) (l2 ++ b)). by rewrite <- !app_assoc.
Qed.

Lemma collapse_underscores_head name :
  head (collapse_underscores name) = head name.
Proof.
  induction name as [|c [|c' rest] IH]; [done..|].
  change (collapse_underscores (c :: c' :: rest))
    with (if (c =? underscore) && (c' =? underscore)
          then collapse_underscores (c' :: rest)
          else c :: collapse_underscores (c' :: rest)).
  destruct ((c =? underscore) && (c' =? underscore)) eqn:E; [|done].
  rewrite IH. apply andb_prop in E as [E1 E2].
  apply N.eqb_eq in E1, E2. by subst.
Qed.

Lemma collapse_underscores_run_free name : run_free (collapse_underscores name).
Proof.
  induction name as [|c [|c' rest] IH]; intros l1 l2.
  - by destruct l1.
  - by destruct l1 as [|? [|]].
  - change (collapse_underscores (c :: c' :: rest))
      with (if (c =? underscore) && (c' =? underscore)
            then collapse_underscores (c' :: rest)
            else c :: collapse_underscores (c' :: rest)).
    destruct ((c =? underscore) && (c' =? underscore)) eqn:E; [apply IH|].
    destruct l1 as [|a l1]; cbn [app]; intros H.
    + injection H as -> H.
      pose proof (eq_trans (eq_sym (collapse_underscores_head (c' :: rest)))
                    (f_equal head H)) as Hh.
      cbn [head] in Hh. injection Hh as ->. done.
    + injection H as _ H. by apply IH in H.
Qed.

Lemma collapse_underscores_Forall (P : N -> Prop) name :
  Forall P name -> Forall P (collapse_underscores name).
Proof.
  induction name as [|c [|c' rest] IH]; intros H; [done..|].
  change (collapse_underscores (c :: c' :: rest))
    with (if (c =? underscore) && (c' =? underscore)
          then collapse_underscores (c' :: rest)
          else c :: collapse_underscores (c' :: rest)).
  inversion H; subst. destruct (_ && _); [by apply IH|].
  constructor; [done|by apply IH].
Qed.

Lemma replace_invalid_Forall name :
  Forall (fun c => filename_char c = true) (replace_invalid name).
Proof.
  apply Forall_fmap, Forall_forall. intros c _. simpl.
  by destruct (filename_char c) eqn:E.
Qed.

(** *** Stripping *)

Lemma lstrip_underscores_spec name :
  exists k, name = k ++ lstrip_underscores name
            /\ head (lstrip_underscores name) <> Some underscore.
Proof.
  induction name as [|c rest (k & Hk & Hh)]; [by exists []|].
  simpl. destruct (N.eqb_spec c underscore) as [->|Hc].
  - exists (underscore :: k). split; [by rewrite Hk at 1|done].
  - exists []. split; [done|]. simpl. congruence.
Qed.

Lemma strip_underscores_occurs_in name : occurs_in (strip_underscores name) name.
Proof.
  unfold strip_underscores.
  destruct (lstrip_underscores_spec name) as (k1 & H1 & _).
  destruct (lstrip_underscores_spec (reverse (lstrip_underscores name)))
    as (k2 & H2 & _).
  exists k1, (reverse k2).
  rewrite <- reverse_app, <- H2, reverse_involutive. exact H1.
Qed.

Lemma strip_underscores_head name :
  head (strip_underscores name) <> Some underscore.
Proof.
  unfold strip_underscores.
  destruct (lstrip_underscores_spec name) as (_ & _ & Hh).
  destruct (lstrip_underscores_spec (reverse (lstrip_underscores name)))
    as (k2 & H2 & _).
  set (m := lstrip_underscores name) in *.
  set (n := lstrip_underscores (reverse m)) in *.
  assert (Hm : m = reverse n ++ reverse k2).
  { by rewrite <- reverse_app, <- H2, reverse_involutive. }
  destruct (reverse n) as [|a r] eqn:E; [done|].
  rewrite Hm in Hh. exact Hh.
Qed.

Lemma strip_underscores_last name :
  last (strip_underscores name) <> Some underscore.
Proof.
  unfold strip_underscores. rewrite last_reverse.
  by destruct (lstrip_underscores_spec (reverse (lstrip_underscores name)))
    as (_ & _ & Hh).
Qed.

Lemma cleaned_Forall name :
  Forall (fun c => filename_char c = true) (cleaned name).
Proof.
  eapply occurs_in_Forall; [apply strip_underscores_occurs_in|].
  apply collapse_underscores_Forall, replace_invalid_Forall.
Qed.

Lemma cleaned_run_free name : run_free (cleaned name).
Proof.
  eapply run_free_occurs_in; [apply strip_underscores_occurs_in|].
  apply collapse_underscores_run_free.
Qed.

Lemma take_occurs_in (n : nat) (s : str) : occurs_in (take n s) s.
Proof. exists [], (drop n s). simpl. by rewrite take_drop. Qed.

(** C1 (as amended).  For every input, the result of [sanitize_filename]
    consists of characters of [A-Za-z0-9_.-] only, has no two consecutive
    underscores, does not start with an underscore and has at most 100
    characters; it does not end with an underscore either whenever the name
    before the final slice has at most 100 characters. *)
Theorem sanitize_filename_shape (name : str) :
  Forall (fun c => filename_char c = true) (sanitize_filename name)
  /\ no_underscore_run (sanitize_filename name)
  /\ head (sanitize_filename name) <> Some underscore
  /\ (length (sanitize_filename name) <= 100)%nat
  /\ ((length (cleaned name) <= 100)%nat ->
      last (sanitize_filename name) <> Some underscore).
Proof.
  unfold sanitize_filename. repeat split.
  - apply Forall_take, cleaned_Forall.
  - apply run_free_no_underscore_run.
    eapply run_free_occurs_in; [apply take_occurs_in|apply cleaned_run_free].
  - pose proof (strip_underscores_head (collapse_underscores (replace_invalid name))) as H.
    fold (cleaned name) in H. by destruct (cleaned name).
  - rewrite length_take. lia.
  - intros Hlen. rewrite take_ge by done. apply strip_underscores_last.
Qed.

(** C1 (as stated) fails: the sanitised [long_title] ends with an underscore. *)
Lemma sanitize_filename_trailing_underscore :
  ~ sanitized_spec (sanitize_filename long_title).
Proof.
  intros (_ & _ & _ & Hlast & _). apply Hlast. vm_compute. reflexivity.
Qed.

Lemma sanitize_filename_shape_witness :
  (length (cleaned (lit "My post")) <= 100)%nat
  /\ last (sanitize_filename (lit "My post")) <> Some underscore.
Proof.
  assert (H : (length (cleaned (lit "My post")) <= 100)%nat) by (vm_compute; lia).
  split; [exact H|].
  exact (proj2 (proj2 (proj2 (proj2 (sanitize_filename_shape (lit "My post"))))) H).
Defined.

(** ** The JSON text: decoding what the encoder wrote *)

Lemma json_stable_check s :
  forallb is_code_point s && negb (has_split_pair s) = true -> json_stable s.
Proof.
  intros H. apply andb_prop in H as [H1 H2]. split; [exact H1|].
  by apply negb_true_iff.
Qed.

Lemma json_stable_all_check (l : list str) :
  forallb (fun s => forallb is_code_point s && negb (has_split_pair s)) l = true ->
  Forall json_stable l.
Proof.
  intros H. apply Forall_forall. intros s Hs. apply json_stable_check.
  rewrite forallb_forall in H. apply H. by apply list_elem_of_In.
Qed.

Lemma json_stable_cons c s :
  json_stable (c :: s) ->
  c < 1114112
  /\ (is_high_surrogate c = true ->
      match s with c' :: _ => is_low_surrogate c' = false | [] => True end)
  /\ json_stable s.
Proof.
  intros [H1 H2]. cbn [forallb] in H1. apply andb_prop in H1 as [Hc H1].
  cbn [has_split_pair] in H2. apply orb_false_elim in H2 as [Hp H2].
  split; [by apply N.ltb_lt|]. split; [|by split].
  intros Hh. rewrite Hh in Hp. destruct s; [done|exact Hp].
Qed.

Lemma hexval_hexdigit d : d < 16 -> hexval (hexdigit d) = Some d.
Proof.
  intros Hd. unfold hexdigit, hexval, is_digit.
  destruct (N.ltb_spec d 10).
  - replace ((48 <=? 48 + d) && (48 + d <=? 57)) with true.
    + f_equal. lia.
    + symmetry. apply andb_true_intro. split; apply N.leb_le; lia.
  - replace ((48 <=? 87 + d) && (87 + d <=? 57)) with false.
    + replace ((97 <=? 87 + d) && (87 + d <=? 102)) with true.
      * f_equal. lia.
      * symmetry. apply andb_true_intro. split; apply N.leb_le; lia.
    + symmetry. apply andb_false_iff. right. apply N.leb_gt. lia.
Qed.

Lemma hex4_value_hex4 n :
  n < 65536 ->
  hex4_value (hexdigit (n / 4096 mod 16)) (hexdigit (n / 256 mod 16))
             (hexdigit (n / 16 mod 16)) (hexdigit (n mod 16)) = Some n.
Proof.
  intros Hn. unfold hex4_value.
  rewrite !hexval_hexdigit by (apply N.mod_lt; lia).
  f_equal.
  replace (n / 4096) with (n / 16 / 16 / 16)
    by (rewrite !N.Div0.div_div; reflexivity).
  replace (n / 256) with (n / 16 / 16)
    by (rewrite !N.Div0.div_div; reflexivity).
  set (q1 := n / 16). set (q2 := q1 / 16). set (q3 := q2 / 16).
  assert (H1 : n = 16 * q1 + n mod 16) by (apply N.div_mod; lia).
  assert (H2 : q1 = 16 * q2 + q1 mod 16) by (apply N.div_mod; lia).
  assert (H3 : q2 = 16 * q3 + q2 mod 16) by (apply N.div_mod; lia).
  assert (B1 : n mod 16 < 16) by (apply N.mod_lt; lia).
  assert (B2 : q1 mod 16 < 16) by (apply N.mod_lt; lia).
  assert (B3 : q2 mod 16 < 16) by (apply N.mod_lt; lia).
  assert (H4 : q3 mod 16 = q3).
  { apply N.mod_small.
    set (r1 := n mod 16) in *. set (r2 := q1 mod 16) in *.
    set (r3 := q2 mod 16) in *. clearbody r1 r2 r3 q3 q2 q1. lia. }
  rewrite H4.
  set (r1 := n mod 16) in *. set (r2 := q1 mod 16) in *.
  set (r3 := q2 mod 16) in *. clearbody r1 r2 r3 q3 q2 q1. lia.
Qed.

Lemma scanstring_short e c' t :
  (e =? 117) = false -> unescape e = Some c' ->
  scanstring (backslash :: e :: t) = consume c' (scanstring t).
Proof.
  intros He Hu. cbn -[unescape]. rewrite He, Hu. reflexivity.
Qed.

Lemma scanstring_plain c t :
  (c =? 34) = false -> (c =? backslash) = false -> (c <? 32) = false ->
  scanstring (c :: t) = consume c (scanstring t).
Proof. intros H1 H2 H3. cbn. rewrite H1, H2, H3. reflexivity. Qed.

Lemma scanstring_u4 h1 h2 h3 h4 u t :
  hex4_value h1 h2 h3 h4 = Some u -> is_high_surrogate u = false ->
  scanstring (backslash :: 117 :: h1 :: h2 :: h3 :: h4 :: t)
  = consume u (scanstring t).
Proof.
  intros H1 H2. cbn -[hex4_value is_high_surrogate]. rewrite H1, H2.
  reflexivity.
Qed.

Lemma scanstring_pair h1 h2 h3 h4 l1 l2 l3 l4 hi lo t :
  hex4_value h1 h2 h3 h4 = Some hi -> is_high_surrogate hi = true ->
  hex4_value l1 l2 l3 l4 = Some lo -> is_low_surrogate lo = true ->
  scanstring (backslash :: 117 :: h1 :: h2 :: h3 :: h4
              :: backslash :: 117 :: l1 :: l2 :: l3 :: l4 :: t)
  = consume (join_surrogates hi lo) (scanstring t).
Proof.
  intros H1 H2 H3 H4.
  cbn -[hex4_value is_high_surrogate is_low_surrogate join_surrogates].
  rewrite H1, H2, H3, H4. reflexivity.
Qed.

(** After the escape of a high surrogate the decoder looks ahead for the
    escape of a low one; when there is none, the high surrogate stands
    alone. *)
Lemma scanstring_u4_high h1 h2 h3 h4 u t :
  hex4_value h1 h2 h3 h4 = Some u -> is_high_surrogate u = true ->
  no_low_escape t ->
  scanstring (backslash :: 117 :: h1 :: h2 :: h3 :: h4 :: t)
  = consume u (scanstring t).
Proof.
  intros H1 H2 Ht.
  cbn -[hex4_value is_high_surrogate is_low_surrogate join_surrogates].
  rewrite H1, H2.
  destruct t as [|b [|e' [|l1 [|l2 [|l3 [|l4 rest3]]]]]]; try reflexivity.
  destruct (N.eqb_spec b backslash) as [->|Hb]; [|reflexivity].
  destruct (N.eqb_spec e' 117) as [->|He]; [|reflexivity].
  destruct (Ht l1 l2 l3 l4 rest3 eq_refl) as (u2 & Hu2 & Hlow).
  cbn [andb]. rewrite Hu2, Hlow. reflexivity.
Qed.

Lemma no_low_escape_dq t : no_low_escape (dq ++ t).
Proof. intros l1 l2 l3 l4 rest H. discriminate H. Qed.

(** What the encoder writes for a character that is not a low surrogate does
    not read as the escape of one. *)
Lemma no_low_escape_escape_char c t :
  c < 1114112 -> is_low_surrogate c = false -> no_low_escape (escape_char c ++ t).
Proof.
  intros Hmax Hlow l1 l2 l3 l4 rest. unfold escape_char.
  destruct (N.eqb_spec c 34) as [->|N34]; [discriminate|].
  destruct (N.eqb_spec c backslash) as [->|N92]; [discriminate|].
  destruct (N.eqb_spec c 10) as [->|N10]; [discriminate|].
  destruct (N.eqb_spec c 13) as [->|N13]; [discriminate|].
  destruct (N.eqb_spec c 9) as [->|N9]; [discriminate|].
  destruct (N.eqb_spec c 8) as [->|N8]; [discriminate|].
  destruct (N.eqb_spec c 12) as [->|N12]; [discriminate|].
  destruct ((32 <=? c) && (c <=? 126)) eqn:Eprint.
  - cbn [app]. intros H. injection H as H _. done.
  - destruct (N.ltb_spec c 65536) as [Hlt|Hge].
    + cbn [hex4 app]. intros H. injection H as <- <- <- <- _.
      exists c. split; [by apply hex4_value_hex4|exact Hlow].
    + set (v := c - 65536).
      assert (Hv : c = 65536 + v) by (unfold v; lia).
      assert (Hdm : v = 1024 * (v / 1024) + v mod 1024)
        by (apply N.div_mod; lia).
      assert (Hr : v mod 1024 < 1024) by (apply N.mod_lt; lia).
      set (q := v / 1024) in *. set (r := v mod 1024) in *.
      clearbody q r v.
      cbn [hex4 app]. intros H. injection H as <- <- <- <- _.
      exists (55296 + q). split; [apply hex4_value_hex4; lia|].
      unfold is_low_surrogate. apply andb_false_iff. left.
      apply N.leb_gt. lia.
Qed.

(** The decoder reads one encoded character back, when what follows a high
    surrogate is not the escape of a low one. *)
Lemma scanstring_escape_char c t :
  c < 1114112 ->
  (is_high_surrogate c = true -> no_low_escape t) ->
  scanstring (escape_char c ++ t) = consume c (scanstring t).
Proof.
  intros Hmax Ht. unfold escape_char.
  destruct (N.eqb_spec c 34) as [->|N34]; [reflexivity|].
  destruct (N.eqb_spec c backslash) as [->|N92]; [reflexivity|].
  destruct (N.eqb_spec c 10) as [->|N10]; [reflexivity|].
  destruct (N.eqb_spec c 13) as [->|N13]; [reflexivity|].
  destruct (N.eqb_spec c 9) as [->|N9]; [reflexivity|].
  destruct (N.eqb_spec c 8) as [->|N8]; [reflexivity|].
  destruct (N.eqb_spec c 12) as [->|N12]; [reflexivity|].
  destruct ((32 <=? c) && (c <=? 126)) eqn:Eprint.
  - apply andb_prop in Eprint as [E1 E2]. apply N.leb_le in E1.
    apply scanstring_plain.
    + by apply N.eqb_neq.
    + by apply N.eqb_neq.
    + apply N.ltb_ge. exact E1.
  - destruct (N.ltb_spec c 65536) as [Hlt|Hge].
    + cbn [hex4 app]. destruct (is_high_surrogate c) eqn:Ehigh.
      * apply scanstring_u4_high; [by apply hex4_value_hex4|exact Ehigh|].
        by apply Ht.
      * apply scanstring_u4; [by apply hex4_value_hex4|exact Ehigh].
    + set (v := c - 65536).
      assert (Hv : c = 65536 + v) by (unfold v; lia).
      assert (Hdm : v = 1024 * (v / 1024) + v mod 1024)
        by (apply N.div_mod; lia).
      assert (Hr : v mod 1024 < 1024) by (apply N.mod_lt; lia).
      set (q := v / 1024) in *. set (r := v mod 1024) in *.
      clearbody q r v.
      cbn [hex4 app].
      rewrite (scanstring_pair _ _ _ _ _ _ _ _ (55296 + q) (56320 + r)).
      * f_equal. unfold join_surrogates. lia.
      * apply hex4_value_hex4. lia.
      * unfold is_high_surrogate. apply andb_true_intro.
        split; apply N.leb_le; lia.
      * apply hex4_value_hex4. lia.
      * unfold is_low_surrogate. apply andb_true_intro.
        split; apply N.leb_le; lia.
Qed.

Lemma scanstring_escaped s t :
  json_stable s ->
  scanstring (concat (map escape_char s) ++ dq ++ t) = Some (s, t).
Proof.
  induction s as [|c s IH]; intros Hs; [reflexivity|].
  apply json_stable_cons in Hs as (Hc & Hnext & Hs).
  cbn [map concat]. rewrite <- app_assoc.
  rewrite scanstring_escape_char.
  - rewrite IH by exact Hs. reflexivity.
  - exact Hc.
  - intros Hhigh. specialize (Hnext Hhigh).
    destruct s as [|c' s']; [apply no_low_escape_dq|].
    apply json_stable_cons in Hs as (Hc' & _ & _).
    cbn [map concat]. rewrite <- app_assoc.
    by apply no_low_escape_escape_char.
Qed.

Lemma encode_string_cons s : encode_string s = 34 :: concat (map escape_char s) ++ dq.
Proof. reflexivity. Qed.

Lemma encode_items_cons s rest :
  exists r, encode_items (s :: rest) = 34 :: r.
Proof. destruct rest; cbn [encode_items]; rewrite encode_string_cons; eauto. Qed.

Lemma encode_items_length l : (length l <= length (encode_items l))%nat.
Proof.
  induction l as [|s [|s' rest] IH]; [done| |].
  - cbn [encode_items]. rewrite encode_string_cons. cbn. lia.
  - change (encode_items (s :: s' :: rest))
      with (encode_string s ++ lit ", " ++ encode_items (s' :: rest)).
    rewrite encode_string_cons, !length_app. cbn [length] in *. lia.
Qed.

Lemma scan_once_string n d s t :
  json_stable s -> scan_once (S n) d (encode_string s ++ t) = Value (JStr s, t).
Proof.
  intros Hs. rewrite encode_string_cons.
  cbn [app scan_once]. change (34 =? 34) with true. cbv iota.
  rewrite <- app_assoc, scanstring_escaped by exact Hs. reflexivity.
Qed.

Lemma array_items_last n scan s v t :
  scan s = Value (v, 93 :: t) -> array_items (S n) scan s = Value ([v], t).
Proof. intros H. cbn [array_items]. rewrite H. reflexivity. Qed.

Lemma array_items_more n scan s v r :
  scan s = Value (v, 44 :: 32 :: 34 :: r) ->
  array_items (S n) scan s = prepend v (array_items n scan (34 :: r)).
Proof. intros H. cbn [array_items]. rewrite H. reflexivity. Qed.

Lemma array_items_encoded l : forall n m d t,
  l <> [] -> Forall json_stable l -> (length l <= n)%nat ->
  array_items n (scan_once (S m) d) (encode_items l ++ 93 :: t)
  = Value (map JStr l, t).
Proof.
  induction l as [|s [|s' rest] IH]; intros n m d t Hne Hl Hn; [done| |].
  - destruct n as [|n]; [cbn in Hn; lia|].
    apply Forall_inv in Hl.
    apply array_items_last. cbn [encode_items].
    by apply scan_once_string.
  - destruct n as [|n]; [cbn in Hn; lia|].
    change (encode_items (s :: s' :: rest))
      with (encode_string s ++ lit ", " ++ encode_items (s' :: rest)).
    destruct (encode_items_cons s' rest) as [r Hr].
    rewrite (array_items_more n _ _ (JStr s) (r ++ 93 :: t)).
    + change (34 :: r ++ 93 :: t) with ((34 :: r) ++ 93 :: t). rewrite <- Hr.
      rewrite IH; [reflexivity|done|by apply Forall_inv_tail in Hl|].
      cbn [length] in *. lia.
    + rewrite <- !app_assoc, Hr.
      apply scan_once_string. by apply Forall_inv in Hl.
Qed.

Lemma scan_once_array n d c r :
  is_ws c = false -> (c =? 93) = false ->
  scan_once (S n) (S d) (91 :: c :: r)
  = match array_items n (scan_once n d) (c :: r) with
    | Value (vs, r') => Value (JArr vs, r')
    | DecodeError => DecodeError
    | Escapes e => Escapes e
    end.
Proof.
  intros Hw Hc. cbn [scan_once skip_ws]. rewrite Hw, Hc. reflexivity.
Qed.

Lemma scan_once_encoded_array l m d :
  Forall json_stable l -> (length l <= S m)%nat ->
  scan_once (S (S m)) (S d) (91 :: encode_items l ++ [93])
  = Value (JArr (map JStr l), []).
Proof.
  intros Hl Hm. destruct l as [|s rest].
  - cbn [encode_items app scan_once skip_ws]. reflexivity.
  - destruct (encode_items_cons s rest) as [r Hr]. rewrite Hr.
    cbn [app]. rewrite scan_once_array by reflexivity.
    change (34 :: r ++ [93]) with ((34 :: r) ++ [93]). rewrite <- Hr.
    rewrite array_items_encoded; [reflexivity|done|exact Hl|exact Hm].
Qed.

(** What [json.dumps] writes for a list of strings without a split pair of
    surrogates, [json.loads] reads back as the array of those strings. *)
Lemma json_loads_dumps (limit : positive) (l : list str) :
  Forall json_stable l ->
  json_loads limit (json_dumps l) = Value (JArr (map JStr l)).
Proof.
  intros Hl. unfold json_loads, json_dumps.
  destruct (Pos2Nat.is_succ limit) as [d ->].
  change (lit "[" ++ encode_items l ++ lit "]") with (91 :: encode_items l ++ [93]).
  change (skip_ws (91 :: encode_items l ++ [93]))
    with (91 :: encode_items l ++ [93]).
  cbn [length]. rewrite length_app, Nat.add_1_r.
  rewrite scan_once_encoded_array; [reflexivity|exact Hl|].
  pose proof (encode_items_length l). lia.
Qed.

(** ** Writes *)

Lemma put_lookup_ne (path path' : str) (f : file) (d : gmap str file) :
  path' <> path -> put path f d !! path' = d !! path'.
Proof.
  intros Hne. unfold put.
  destruct (d !! path) as [[]|]; [done| | |]; by apply lookup_insert_ne.
Qed.

Lemma put_lookup (path : str) (f : file) (d : gmap str file) :
  d !! path <> Some Unreadable -> put path f d !! path = Some f.
Proof.
  intros Hr. unfold put.
  destruct (d !! path) as [[]|]; [done| | |]; apply lookup_insert_eq.
Qed.

Lemma put_is_Some (path : str) (f : file) (d : gmap str file) : is_Some (put path f d !! path).
Proof.
  unfold put. destruct (d !! path) as [[]|] eqn:E;
    rewrite ?lookup_insert_eq, ?E; by eexists.
Qed.

Lemma put_unreadable (path : str) (f : file) (d : gmap str file) :
  d !! path = Some Unreadable -> put path f d = d.
Proof. intros H. unfold put. by rewrite H. Qed.

(** ** The deduplication store *)

Section StoreProperties.

Variable set_order : gset str -> list str.
Hypothesis set_order_perm : forall X, set_order X ≡ₚ elements X.

Lemma python_set_strings (l : list str) :
  python_set (JArr (map JStr l)) = Returned (Ids (list_to_set l)).
Proof.
  unfold python_set.
  replace (forallb hashable (map JStr l)) with true.
  - replace (mapM as_string (map JStr l)) with (Some l); [done|].
    symmetry. apply mapM_fmap_Some. done.
  - symmetry. induction l; [done|]. cbn. done.
Qed.

Lemma save_then_load (ids : gset str) (w : world) :
  HISTORY_FILE ∉ readonly w ->
  disk w !! HISTORY_FILE <> Some Unreadable ->
  (forall i, i ∈ ids -> json_stable i) ->
  load_processed_posts (save_processed_posts set_order ids w) = Returned (Ids ids).
Proof.
  intros Hw Hr Hids. unfold save_processed_posts.
  rewrite bool_decide_eq_false_2 by exact Hw.
  unfold load_processed_posts, write_file. cbn [disk].
  rewrite put_lookup by exact Hr.
  rewrite json_loads_dumps.
  - rewrite python_set_strings. do 2 f_equal.
    rewrite (set_order_perm ids). apply list_to_set_elements_L.
  - apply Forall_forall. intros i Hi. apply Hids.
    rewrite (set_order_perm ids) in Hi. by apply elem_of_elements in Hi.
Qed.

(** C7 (as amended).  Saving a set of identifiers and loading the store
    again gives the same set, whatever the order in which the set was
    written, when the store file can be written, can be read, and no
    identifier holds a high surrogate directly followed by a low
    surrogate. *)
Theorem save_load_roundtrip (ids : gset str) (w : world) :
  HISTORY_FILE ∉ readonly w ->
  disk w !! HISTORY_FILE <> Some Unreadable ->
  (forall i, i ∈ ids -> json_stable i) ->
  load_processed_posts (save_processed_posts set_order ids w) = Returned (Ids ids).
Proof. exact (save_then_load ids w). Qed.

(** A store file that cannot be written keeps what it held, and one that
    cannot be read loads as the empty set, whatever was saved. *)
Lemma save_processed_posts_readonly (ids : gset str) (w : world) :
  HISTORY_FILE ∈ readonly w -> save_processed_posts set_order ids w = w.
Proof.
  intros H. unfold save_processed_posts. by rewrite bool_decide_eq_true_2.
Qed.

Lemma save_load_unreadable (ids : gset str) (w : world) :
  disk w !! HISTORY_FILE = Some Unreadable ->
  load_processed_posts (save_processed_posts set_order ids w) = Returned (Ids ∅).
Proof.
  intros H. unfold save_processed_posts.
  destruct (bool_decide (HISTORY_FILE ∈ readonly w)).
  - unfold load_processed_posts. by rewrite H.
  - unfold load_processed_posts, write_file. cbn [disk].
    rewrite put_unreadable by exact H. by rewrite H.
Qed.

End StoreProperties.

Lemma save_load_roundtrip_witness :
  load_processed_posts
    (save_processed_posts elements {[lit "abc123"; lit "def456"]} (fresh_world []))
  = Returned (Ids {[lit "abc123"; lit "def456"]}).
Proof.
  apply (save_load_roundtrip elements).
  - intros X. reflexivity.
  - vm_compute. intros H. discriminate H.
  - vm_compute. discriminate.
  - intros i Hi. apply elem_of_elements in Hi. revert i Hi.
    apply Forall_forall, json_stable_all_check. vm_compute. reflexivity.
Defined.

(** What the store holds and gives back for [split_pair]: the two escapes
    the encoder writes are one character to the decoder. *)
Example save_split_pair :
  disk (save_processed_posts elements {[split_pair]} (fresh_world [])) !! HISTORY_FILE
  = Some (Text (lit "[" ++ dq ++ lit "\ud83d\ude00" ++ dq ++ lit "]")).
Proof. vm_compute. reflexivity. Qed.

Example load_split_pair :
  load_processed_posts
    (save_processed_posts elements {[split_pair]} (fresh_world []))
  = Returned (Ids {[ [128512] ]}).
Proof. vm_compute. reflexivity. Qed.

(** C7 (as stated) fails: the set that holds [split_pair], saved to a store
    that can be written and read, is not the set that is loaded. *)
Lemma save_load_roundtrip_split_pair :
  load_processed_posts
    (save_processed_posts elements {[split_pair]} (fresh_world []))
  <> Returned (Ids {[split_pair]}).
Proof.
  rewrite load_split_pair. intros H.
  assert (Hids : ({[ [128512] ]} : gset str) = {[split_pair]}) by congruence.
  assert (Hin : split_pair ∈ ({[ [128512] ]} : gset str))
    by (rewrite Hids; by apply elem_of_singleton).
  apply elem_of_singleton in Hin. discriminate Hin.
Qed.

(** A lone surrogate comes back as it was. *)
Example save_load_lone_surrogate :
  load_processed_posts
    (save_processed_posts elements {[ [55357; 97] ]} (fresh_world []))
  = Returned (Ids {[ [55357; 97] ]}).
Proof. vm_compute. reflexivity. Qed.

(** How the store degrades: no file, a file that cannot be read and a file
    that is not JSON all give the empty set; an array of strings gives its
    members; an exception of the decoder that is not its own leaves the
    function. *)
Lemma load_processed_posts_escapes w content e :
  disk w !! HISTORY_FILE = Some (Text content) ->
  json_loads (recursion_limit w) content = Escapes e ->
  load_processed_posts w = Raised e.
Proof. intros H1 H2. unfold load_processed_posts. by rewrite H1, H2. Qed.

Lemma load_processed_posts_absent w :
  disk w !! HISTORY_FILE = None -> load_processed_posts w = Returned (Ids ∅).
Proof. intros H. unfold load_processed_posts. by rewrite H. Qed.

Lemma load_processed_posts_unreadable w :
  disk w !! HISTORY_FILE = Some Unreadable ->
  load_processed_posts w = Returned (Ids ∅).
Proof. intros H. unfold load_processed_posts. by rewrite H. Qed.

Lemma load_processed_posts_malformed w content :
  disk w !! HISTORY_FILE = Some (Text content) ->
  json_loads (recursion_limit w) content = DecodeError ->
  load_processed_posts w = Returned (Ids ∅).
Proof. intros H1 H2. unfold load_processed_posts. by rewrite H1, H2. Qed.

Lemma load_processed_posts_array w content l :
  disk w !! HISTORY_FILE = Some (Text content) ->
  json_loads (recursion_limit w) content = Value (JArr (map JStr l)) ->
  load_processed_posts w = Returned (Ids (list_to_set l)).
Proof.
  intros H1 H2. unfold load_processed_posts. rewrite H1, H2.
  apply python_set_strings.
Qed.

Example load_processed_posts_example :
  load_processed_posts
    (with_history (Text (lit "[" ++ dq ++ lit "abc123" ++ dq ++ lit ", "
                         ++ dq ++ lit "def456" ++ dq ++ lit "]")))
  = Returned (Ids {[lit "abc123"; lit "def456"]}).
Proof. vm_compute. reflexivity. Qed.

(** C2 fails on a store file that holds the JSON text [null]: [set(None)]
    raises [TypeError], which the handler does not catch. *)
Theorem load_processed_posts_null_raises :
  load_processed_posts (with_history (Text (lit "null"))) = Raised TypeError.
Proof. vm_compute. reflexivity. Qed.

(** The same for a list that holds a list, and for a file that is not text. *)
Example load_processed_posts_nested_raises :
  load_processed_posts (with_history (Text (lit "[[]]"))) = Raised TypeError.
Proof. vm_compute. reflexivity. Qed.

Example load_processed_posts_binary_raises :
  load_processed_posts (with_history Binary) = Raised UnicodeDecodeError.
Proof. vm_compute. reflexivity. Qed.

(** An integer of 4301 digits, and arrays nested deeper than the interpreter
    allows. *)
Example load_processed_posts_long_integer_raises :
  load_processed_posts
    (with_history (Text (lit "[" ++ replicate 4301 49 ++ lit "]")))
  = Raised ValueError.
Proof. vm_compute. reflexivity. Qed.

Example load_processed_posts_deep_nesting_raises :
  load_processed_posts
    (with_history (Text (replicate 1001 91 ++ replicate 1001 93)))
  = Raised RecursionError.
Proof. vm_compute. reflexivity. Qed.

(** ** Properties of [generate_tts] *)

Lemma narration_long text :
  (MAX_TEXT_LENGTH < length text)%nat ->
  narration text = take MAX_TEXT_LENGTH text ++ truncation_suffix.
Proof.
  intros H. unfold narration.
  by rewrite (proj2 (Nat.ltb_lt _ _) H).
Qed.

Lemma narration_short text :
  (length text <= MAX_TEXT_LENGTH)%nat -> narration text = text.
Proof.
  intros H. unfold narration.
  by rewrite (proj2 (Nat.ltb_ge _ _) H).
Qed.

(** One invocation of the speech service: it succeeds exactly when the
    next reply says so, consumes that reply, is recorded, and touches no path
    but its target, which is on disk after a success. *)
Lemma synthesize_spec text filepath w :
  exists ok w',
    synthesize text filepath w = (ok, w')
    /\ (ok = true <-> tts_replies w !! 0%nat = Some true)
    /\ tts_replies w' = drop 1 (tts_replies w)
    /\ tts_calls w' = tts_calls w ++ [(text, filepath)]
    /\ audio_dir_ok w' = audio_dir_ok w
    /\ readonly w' = readonly w
    /\ (forall path, path <> filepath -> disk w' !! path = disk w !! path)
    /\ (ok = true -> is_Some (disk w' !! filepath)).
Proof.
  unfold synthesize.
  destruct (tts_replies w) as [|[] l]; do 2 eexists; (split; [reflexivity|]);
    cbn [tts_replies tts_calls audio_dir_ok readonly disk lookup drop];
    (split; [split; first [done | discriminate]|]); repeat split; try done.
  - intros path Hne. unfold failed_save.
    destruct (tts_leftovers _ _); [by apply put_lookup_ne|done].
  - intros path Hne. by apply put_lookup_ne.
  - intros _. apply put_is_Some.
  - intros path Hne. unfold failed_save.
    destruct (tts_leftovers _ _); [by apply put_lookup_ne|done].
Qed.

(** What a call of [generate_tts] does when the audio directory is there:
    between one and three invocations of the speech service, all with the
    same text and path, one for each reply up to the first that is a
    success; it returns the file name it was given, with the clip on disk,
    or [None] after three failures; no path but the target is touched. *)
Lemma generate_tts_spec text filename w :
  audio_dir_ok w = true ->
  exists (n : nat) r w',
    generate_tts text filename w = (Returned r, w')
    /\ (1 <= n <= 3)%nat
    /\ tts_calls w' = tts_calls w
         ++ replicate n (narration text, path_join AUDIO_DIR filename)
    /\ tts_replies w' = drop n (tts_replies w)
    /\ (forall i : nat, (S i < n)%nat -> tts_replies w !! i <> Some true)
    /\ ((r = Some filename /\ tts_replies w !! pred n = Some true
         /\ is_Some (disk w' !! path_join AUDIO_DIR filename))
        \/ (r = None /\ n = 3%nat /\ tts_replies w !! 2%nat <> Some true))
    /\ audio_dir_ok w' = true
    /\ readonly w' = readonly w
    /\ (forall path, path <> path_join AUDIO_DIR filename ->
                     disk w' !! path = disk w !! path).
Proof.
  intros Hdir. unfold generate_tts. rewrite Hdir.
  cbn [seq tts_attempts].
  set (t := narration text). set (p := path_join AUDIO_DIR filename).
  destruct (synthesize_spec t p w)
    as (ok1 & w1 & E1 & Hok1 & Hr1 & Hc1 & Hd1 & Hro1 & Hdisk1 & Hsome1).
  rewrite E1. destruct ok1.
  { exists 1%nat, (Some filename), w1. split; [reflexivity|].
    split; [lia|]. split; [exact Hc1|]. split; [exact Hr1|].
    split; [intros i Hi; lia|].
    split; [left; split; [done|]; split; [by apply Hok1|by apply Hsome1]|].
    split; [congruence|]. split; [exact Hro1|exact Hdisk1]. }
  assert (H0 : tts_replies w !! 0%nat <> Some true).
  { intros H. apply Hok1 in H. discriminate H. }
  cbn [Nat.eqb].
  destruct (synthesize_spec t p w1)
    as (ok2 & w2 & E2 & Hok2 & Hr2 & Hc2 & Hd2 & Hro2 & Hdisk2 & Hsome2).
  rewrite E2.
  assert (Hl1 : tts_replies w1 !! 0%nat = tts_replies w !! 1%nat)
    by (rewrite Hr1; apply lookup_drop).
  assert (Hrep2 : tts_replies w2 = drop 2 (tts_replies w))
    by (rewrite Hr2, Hr1; apply drop_drop).
  assert (Hcalls2 : tts_calls w2 = tts_calls w ++ replicate 2 (t, p))
    by (rewrite Hc2, Hc1, <- app_assoc; reflexivity).
  assert (Hother2 : forall path, path <> p -> disk w2 !! path = disk w !! path).
  { intros path Hne. rewrite Hdisk2 by exact Hne. by apply Hdisk1. }
  destruct ok2.
  { exists 2%nat, (Some filename), w2. split; [reflexivity|].
    split; [lia|]. split; [exact Hcalls2|]. split; [exact Hrep2|].
    split; [intros i Hi; by replace i with 0%nat by lia|].
    split.
    - left. split; [done|]. split; [|by apply Hsome2].
      cbn [pred]. rewrite <- Hl1. by apply Hok2.
    - split; [congruence|]. split; [congruence|exact Hother2]. }
  assert (H1 : tts_replies w !! 1%nat <> Some true).
  { rewrite <- Hl1. intros H. apply Hok2 in H. discriminate H. }
  cbn [Nat.eqb].
  destruct (synthesize_spec t p w2)
    as (ok3 & w3 & E3 & Hok3 & Hr3 & Hc3 & Hd3 & Hro3 & Hdisk3 & Hsome3).
  rewrite E3.
  assert (Hl2 : tts_replies w2 !! 0%nat = tts_replies w !! 2%nat)
    by (rewrite Hrep2; apply lookup_drop).
  assert (Hrep3 : tts_replies w3 = drop 3 (tts_replies w))
    by (rewrite Hr3, Hrep2; apply drop_drop).
  assert (Hcalls3 : tts_calls w3 = tts_calls w ++ replicate 3 (t, p))
    by (rewrite Hc3, Hcalls2, <- app_assoc; reflexivity).
  assert (Hother3 : forall path, path <> p -> disk w3 !! path = disk w !! path).
  { intros path Hne. rewrite Hdisk3 by exact Hne. by apply Hother2. }
  assert (Hbefore : forall i : nat, (S i < 3)%nat -> tts_replies w !! i <> Some true).
  { intros i Hi. destruct i as [|[|i]]; [done|done|lia]. }
  destruct ok3.
  - exists 3%nat, (Some filename), w3. split; [reflexivity|].
    split; [lia|]. split; [exact Hcalls3|]. split; [exact Hrep3|].
    split; [exact Hbefore|]. split.
    + left. split; [done|]. split; [|by apply Hsome3].
      cbn [pred]. rewrite <- Hl2. by apply Hok3.
    + split; [congruence|]. split; [congruence|exact Hother3].
  - cbn [Nat.eqb]. exists 3%nat, None, w3. split; [reflexivity|].
    split; [lia|]. split; [exact Hcalls3|]. split; [exact Hrep3|].
    split; [exact Hbefore|]. split.
    + right. split; [done|]. split; [done|].
      rewrite <- Hl2. intros H. apply Hok3 in H. discriminate H.
    + split; [congruence|]. split; [congruence|exact Hother3].
Qed.

Lemma generate_tts_no_directory text filename w :
  audio_dir_ok w = false -> generate_tts text filename w = (Raised OSError, w).
Proof. intros H. unfold generate_tts. by rewrite H. Qed.


(** The first reply that is a success ends the retries. *)
Lemma generate_tts_first_success text filename w (k : nat) :
  audio_dir_ok w = true ->
  (k < 3)%nat ->
  tts_replies w !! k = Some true ->
  (forall i : nat, (i < k)%nat -> tts_replies w !! i <> Some true) ->
  fst (generate_tts text filename w) = Returned (Some filename)
  /\ tts_calls (snd (generate_tts text filename w))
     = tts_calls w ++ replicate (S k) (narration text, path_join AUDIO_DIR filename)
  /\ path_exists (snd (generate_tts text filename w)) (path_join AUDIO_DIR filename)
     = true
  /\ tts_replies (snd (generate_tts text filename w)) = drop (S k) (tts_replies w).
Proof.
  intros Hdir Hk Hok Hfail.
  destruct (generate_tts_spec text filename w Hdir)
    as (n & r & w' & Hg & Hn & Hcalls & Hrep & Hbefore & Hcase & _).
  rewrite Hg. cbn [fst snd].
  destruct Hcase as [(-> & Hlast & Hfile)|(_ & -> & Hlast)].
  - assert (n = S k) as ->.
    { destruct (Nat.lt_trichotomy (pred n) k) as [Hlt|[Heq|Hgt]].
      - by destruct (Hfail _ Hlt).
      - lia.
      - destruct (Hbefore k); [lia|exact Hok]. }
    repeat split; try done. unfold path_exists. by apply bool_decide_eq_true_2.
  - exfalso. destruct (decide (k = 2%nat)) as [->|Hne]; [done|].
    destruct (Hbefore k); [lia|exact Hok].
Qed.

Example generate_tts_example :
  let '(r, w') := generate_tts (replicate 5001 97) (lit "x.mp3") (fresh_world [false; true]) in
  r = Returned (Some (lit "x.mp3"))
  /\ tts_calls w'
     = replicate 2 (replicate 5000 97 ++ lit "... [Content truncated due to length]",
                    lit "audio/x.mp3")
  /\ path_exists w' (lit "audio/x.mp3") = true.
Proof. vm_compute. done. Qed.

(** C3.  Every invocation of the speech service that [generate_tts] makes
    carries the same text: the first 5000 characters of the text followed by
    the fixed suffix when the text is longer than 5000 characters, and the
    text unchanged otherwise; when the audio directory is there, there is at
    least one invocation and at most three. *)
Theorem generate_tts_truncates (text filename : str) (w : world) :
  exists (n : nat) (spoken : str),
    tts_calls (snd (generate_tts text filename w))
    = tts_calls w ++ replicate n (spoken, path_join AUDIO_DIR filename)
    /\ (audio_dir_ok w = true -> (1 <= n <= 3)%nat)
    /\ ((MAX_TEXT_LENGTH < length text)%nat ->
        spoken = take MAX_TEXT_LENGTH text
                 ++ lit "... [Content truncated due to length]"
        /\ length spoken = (MAX_TEXT_LENGTH + 37)%nat)
    /\ ((length text <= MAX_TEXT_LENGTH)%nat -> spoken = text).
Proof.
  destruct (audio_dir_ok w) eqn:Hdir.
  - destruct (generate_tts_spec text filename w Hdir)
      as (n & r & w' & Hg & Hn & Hcalls & _).
    exists n, (narration text). rewrite Hg. cbn [snd].
    split; [exact Hcalls|]. split; [done|]. split.
    + intros Hlong. rewrite narration_long by exact Hlong. split; [done|].
      rewrite length_app, length_take_le by lia. reflexivity.
    + apply narration_short.
  - exists 0%nat, (narration text).
    rewrite generate_tts_no_directory by exact Hdir. cbn [snd replicate].
    split; [by rewrite app_nil_r|]. split; [done|]. split.
    + intros Hlong. rewrite narration_long by exact Hlong. split; [done|].
      rewrite length_app, length_take_le by lia. reflexivity.
    + apply narration_short.
Qed.

(** ** Properties of the loop *)

Lemma audio_filename_cons x : exists c f, audio_filename x = c :: f.
Proof.
  unfold audio_filename.
  destruct (sub_id x ++ lit "_" ++ sanitize_filename (clean_title x))
    as [|c f] eqn:E.
  - destruct (sub_id x); discriminate E.
  - exists c, (f ++ lit ".mp3"). reflexivity.
Qed.

Lemma process_submission_cases x st :
  turn_skips st (after (process_submission x st))
  \/ turn_accepts x st (after (process_submission x st)).
Proof.
  unfold process_submission.
  destruct (skipped x (processed_ids st)) eqn:Hskip; [by left|].
  destruct (path_exists (env st) (audio_path x)); [by right|].
  destruct (audio_dir_ok (env st)) eqn:Hdir.
  - destruct (generate_tts_spec (full_text x) (audio_filename x) (env st) Hdir)
      as (n & r & w' & Hg & _ & _ & _ & _ & [(-> & _)|(-> & _)] & _); rewrite Hg.
    + destruct (audio_filename_cons x) as (c & f & E).
      rewrite E. right. by rewrite <- E.
    + by left.
  - rewrite generate_tts_no_directory by exact Hdir. by left.
Qed.

(** The number of invocations of the speech service in one turn. *)
Lemma process_submission_calls x st :
  exists n : nat,
    (n <= 3)%nat
    /\ length (tts_calls (env (after (process_submission x st))))
       = (length (tts_calls (env st)) + n)%nat.
Proof.
  unfold process_submission.
  destruct (skipped x (processed_ids st)); [exists 0%nat; cbn; lia|].
  destruct (path_exists (env st) (audio_path x)); [exists 0%nat; cbn; lia|].
  destruct (audio_dir_ok (env st)) eqn:Hdir.
  - destruct (generate_tts_spec (full_text x) (audio_filename x) (env st) Hdir)
      as (n & r & w' & Hg & Hn & Hcalls & _). rewrite Hg.
    exists n. split; [lia|].
    assert (Hlen : length (tts_calls w') = (length (tts_calls (env st)) + n)%nat)
      by (by rewrite Hcalls, length_app, length_replicate).
    destruct r as [[|c f]|]; exact Hlen.
  - rewrite generate_tts_no_directory by exact Hdir. exists 0%nat. cbn. lia.
Qed.

(** C6.  For a submission that passes the test and whose audio file is on
    disk already, the turn does not touch the world (so the speech service is
    not invoked), and the submission is accepted with the existing file name:
    its record is appended to the list and its identifier added to the
    set. *)
Theorem existing_audio_is_reused (x : submission) (st : run) :
  skipped x (processed_ids st) = false ->
  path_exists (env st) (audio_path x) = true ->
  process_submission x st
  = Next (Run (posts_data st ++ [accepted x (audio_filename x)])
              ({[sub_id x]} ∪ processed_ids st)
              (env st))
  /\ tts_calls (env (after (process_submission x st))) = tts_calls (env st)
  /\ post_audio_file (accepted x (audio_filename x)) = audio_filename x
  /\ sub_id x ∈ processed_ids (after (process_submission x st)).
Proof.
  intros Hskip Hfile. unfold process_submission. rewrite Hskip, Hfile.
  cbn. repeat split. set_solver.
Qed.

Lemma existing_audio_is_reused_witness :
  let x := sample (lit "def456") in
  let st := Run [] {[lit "abc123"]}
                (write_file (lit "audio/def456_A_story.mp3") Binary (fresh_world [])) in
  process_submission x st
  = Next (Run (posts_data st ++ [accepted x (audio_filename x)])
              ({[sub_id x]} ∪ processed_ids st)
              (env st))
  /\ tts_calls (env (after (process_submission x st))) = tts_calls (env st)
  /\ post_audio_file (accepted x (audio_filename x)) = audio_filename x
  /\ sub_id x ∈ processed_ids (after (process_submission x st)).
Proof.
  apply existing_audio_is_reused; vm_compute; reflexivity.
Defined.

(** *** The whole run *)

Lemma skipped_false x ids : skipped x ids = false <-> eligible x ids.
Proof.
  unfold skipped, eligible. rewrite !orb_false_iff, bool_decide_eq_false.
  rewrite negb_false_iff, Nat.ltb_ge.
  destruct (selftext x) as [|c body]; intuition congruence.
Qed.

Lemma skipped_true x ids :
  sub_id x ∈ ids \/ stickied x = true \/ is_self x = false
  \/ selftext x = [] \/ (length (selftext x) < MIN_TEXT_LENGTH)%nat ->
  skipped x ids = true.
Proof.
  intros H. destruct (skipped x ids) eqn:E; [done|].
  apply skipped_false in E as (H1 & H2 & H3 & H4 & H5).
  destruct H as [H|[H|[H|[H|H]]]]; first [congruence | done | lia].
Qed.

Lemma eligible_subseteq x ids ids' :
  ids ⊆ ids' -> eligible x ids' -> eligible x ids.
Proof. unfold eligible. set_solver. Qed.

Lemma process_all_invariant items : forall st,
  processed_ids st ⊆ processed_ids (process_all items st)
  /\ exists new,
       posts_data (process_all items st) = posts_data st ++ new
       /\ Forall (added_by items (processed_ids st)
                           (processed_ids (process_all items st))) new.
Proof.
  induction items as [|x rest IH]; intros st.
  - cbn. split; [done|]. exists []. by rewrite app_nil_r.
  - cbn [process_all].
    pose proof (process_submission_cases x st) as Hcase.
    assert (Hone : processed_ids st ⊆ processed_ids (after (process_submission x st))
      /\ exists new0,
           posts_data (after (process_submission x st)) = posts_data st ++ new0
           /\ Forall (fun p => post_id p ∈ processed_ids (after (process_submission x st))
                               /\ p = accepted x (audio_filename x)
                               /\ eligible x (processed_ids st)) new0).
    { destruct Hcase as [[Hp Hi]|(Hs & Hp & Hi)].
      - rewrite Hp, Hi. split; [done|]. exists []. by rewrite app_nil_r.
      - rewrite Hp, Hi. split; [set_solver|]. eexists. split; [done|].
        constructor; [|done]. split; [cbn; set_solver|].
        split; [done|]. by apply skipped_false. }
    destruct Hone as (Hsub & new0 & Hposts & Hnew0).
    destruct (process_submission x st) as [s1|s1]; cbn [after] in *.
    + destruct (IH s1) as (Hsub1 & new1 & Hposts1 & Hnew1).
      split; [set_solver|]. exists (new0 ++ new1).
      split; [by rewrite Hposts1, Hposts, app_assoc|].
      apply Forall_app. split.
      * eapply Forall_impl; [exact Hnew0|]. intros p (Hin & -> & Hel).
        split; [set_solver|]. exists x. split; [left|done].
      * eapply Forall_impl; [exact Hnew1|]. intros p (Hin & y & Hy & -> & Hel).
        split; [done|]. exists y. split; [by right|]. split; [done|].
        by eapply eligible_subseteq.
    + split; [done|]. exists new0. split; [done|].
      eapply Forall_impl; [exact Hnew0|]. intros p (Hin & -> & Hel).
      split; [done|]. exists x. split; [left|done].
Qed.

Lemma fetch_and_process_posts_added hot ids w :
  ids ⊆ processed_ids (fetch_and_process_posts hot ids w)
  /\ Forall (added_by (take POST_LIMIT hot) ids
                      (processed_ids (fetch_and_process_posts hot ids w)))
            (posts_data (fetch_and_process_posts hot ids w)).
Proof.
  unfold fetch_and_process_posts.
  destruct (process_all_invariant (take POST_LIMIT hot) (Run [] ids w))
    as (Hsub & new & Hposts & Hnew).
  cbn [posts_data processed_ids app] in *. split; [done|]. by rewrite Hposts.
Qed.

Lemma returned_post_origin hot ids w p :
  p ∈ posts_data (fetch_and_process_posts hot ids w) ->
  post_id p ∈ processed_ids (fetch_and_process_posts hot ids w)
  /\ exists x,
       x ∈ take POST_LIMIT hot /\ p = accepted x (audio_filename x)
       /\ eligible x ids.
Proof.
  intros Hp.
  destruct (fetch_and_process_posts_added hot ids w) as [_ Hall].
  rewrite Forall_forall in Hall. exact (Hall p Hp).
Qed.

(** C5.  Every record in the list that [fetch_and_process_posts] returns was
    made from a submission of the listing that is not in the set given to the
    function, is not stickied, is a self post and has at least 50 characters
    of body text; so a submission that fails one of these adds nothing, and
    no record carries an identifier of the given set. *)
Theorem filtered_submissions_are_excluded (hot : list submission)
    (ids : gset str) (w : world) (p : post) :
  p ∈ posts_data (fetch_and_process_posts hot ids w) ->
  (post_id p ∉ ids)
  /\ post_text p <> []
  /\ (50 <= length (post_text p))%nat
  /\ exists x,
       x ∈ take POST_LIMIT hot
       /\ p = accepted x (audio_filename x)
       /\ skipped x ids = false
       /\ (sub_id x ∉ ids)
       /\ stickied x = false
       /\ is_self x = true
       /\ selftext x <> []
       /\ (50 <= length (selftext x))%nat.
Proof.
  intros Hp.
  destruct (fetch_and_process_posts_added hot ids w) as [_ Hall].
  rewrite Forall_forall in Hall.
  destruct (Hall p Hp) as (_ & x & Hx & -> & Hel).
  pose proof Hel as (H1 & H2 & H3 & H4 & H5).
  cbn [accepted post_id post_text].
  repeat split; try done. exists x.
  repeat split; try done. by apply skipped_false.
Qed.

(** C9.  The set that [fetch_and_process_posts] returns contains the set it
    was given, and the identifier of every record in the returned list. *)
Theorem processed_ids_only_grow (hot : list submission) (ids : gset str)
    (w : world) :
  ids ⊆ processed_ids (fetch_and_process_posts hot ids w)
  /\ forall p, p ∈ posts_data (fetch_and_process_posts hot ids w) ->
               post_id p ∈ processed_ids (fetch_and_process_posts hot ids w).
Proof.
  destruct (fetch_and_process_posts_added hot ids w) as [Hsub Hall].
  split; [done|]. intros p Hp.
  rewrite Forall_forall in Hall. by destruct (Hall p Hp) as [Hin _].
Qed.

(** *** A turn in which the speech service does not answer *)







(** What a failed turn can leave behind: the three attempts for [def456]
    fail and leave an empty clip; the next run finds the file and accepts the
    post with it, without a call of the speech service. *)
Example leftover_clip_is_taken :
  let r1 := fetch_and_process_posts [sample (lit "def456")] ∅
              (fresh_world [false; false; false]) in
  let r2 := fetch_and_process_posts [sample (lit "def456")] (processed_ids r1)
              (env r1) in
  posts_data r1 = []
  /\ processed_ids r1 = ∅
  /\ disk (env r1) !! lit "audio/def456_A_story.mp3" = Some (Text [])
  /\ posts_data r2 = [scenario_post]
  /\ tts_calls (env r2) = tts_calls (env r1).
Proof. vm_compute. done. Qed.

(** ** Properties of the page *)

(** *** The sort *)

Lemma insert_newest_perm p l : insert_newest p l ≡ₚ p :: l.
Proof.
  induction l as [|q l IH]; [done|]. cbn [insert_newest].
  destruct (date_key p <? date_key q)%Z; [|done].
  rewrite IH. apply Permutation_swap.
Qed.

Lemma sort_newest_first_perm l : sort_newest_first l ≡ₚ l.
Proof.
  induction l as [|p l IH]; [done|].
  cbn [sort_newest_first foldr]. rewrite insert_newest_perm.
  fold (sort_newest_first l). by rewrite IH.
Qed.

Lemma insert_newest_sorted p l :
  StronglySorted newer_or_same l -> StronglySorted newer_or_same (insert_newest p l).
Proof.
  induction 1 as [|q l Hl IH Hq]; [repeat constructor|].
  cbn [insert_newest]. destruct (Z.ltb_spec (date_key p) (date_key q)).
  - constructor; [exact IH|]. rewrite insert_newest_perm.
    constructor; [unfold newer_or_same; lia|exact Hq].
  - constructor; [by constructor|]. constructor; [done|].
    eapply Forall_impl; [exact Hq|]. unfold newer_or_same. intros. lia.
Qed.

Lemma sort_newest_first_sorted l :
  StronglySorted newer_or_same (sort_newest_first l).
Proof.
  induction l as [|p l IH]; [constructor|].
  cbn [sort_newest_first foldr]. by apply insert_newest_sorted.
Qed.

Lemma StronglySorted_lookup (l : list post) :
  StronglySorted newer_or_same l ->
  forall (i j : nat) p q,
    l !! i = Some p -> l !! j = Some q -> (i < j)%nat -> newer_or_same p q.
Proof.
  induction 1 as [|x l Hl IH Hx]; intros i j p q Hi Hj Hij; [done|].
  destruct j as [|j]; [lia|]. destruct i as [|i].
  - injection Hi as <-. rewrite Forall_forall in Hx. apply Hx.
    by eapply list_elem_of_lookup_2.
  - apply (IH i j); [done..|lia].
Qed.

(** *** Occurrences in a page *)

Lemma occurs_in_concat_map (f : post -> str) (l : list post) p :
  p ∈ l -> occurs_in (f p) (concat (map f l)).
Proof.
  intros Hp. apply list_elem_of_split in Hp as (l1 & l2 & ->).
  rewrite map_app, concat_app. cbn [map concat].
  by apply occurs_in_app_r, occurs_in_app_l, occurs_in_refl.
Qed.

Lemma has_pair_app a b s t :
  has_pair a b (s ++ t)
  = has_pair a b s || has_pair a b t
    || (ends_with_char a s && starts_with_char b t).
Proof.
  induction s as [|c [|c' s] IH].
  - cbn. by rewrite orb_false_r.
  - cbn [app has_pair ends_with_char last]. destruct t as [|d t]; cbn.
    + by rewrite andb_false_r.
    + apply orb_comm.
  - change (has_pair a b ((c :: c' :: s) ++ t))
      with (((c =? a) && (c' =? b)) || has_pair a b ((c' :: s) ++ t)).
    rewrite IH.
    change (has_pair a b (c :: c' :: s))
      with (((c =? a) && (c' =? b)) || has_pair a b (c' :: s)).
    change (ends_with_char a (c :: c' :: s)) with (ends_with_char a (c' :: s)).
    by rewrite !orb_assoc.
Qed.

Lemma occurs_in_has_pair a b m t :
  occurs_in (a :: b :: m) t -> has_pair a b t = true.
Proof.
  intros (pre & post & ->). rewrite has_pair_app.
  change ((a :: b :: m) ++ post) with (a :: b :: (m ++ post)).
  cbn [has_pair]. by rewrite !N.eqb_refl, orb_true_r.
Qed.

(** A string without the character [a] has no pair that starts with it. *)
Lemma has_pair_without a b s :
  Forall (fun c => c <> a) s ->
  has_pair a b s = false /\ ends_with_char a s = false.
Proof.
  induction 1 as [|c s Hc Hs [IH1 IH2]]; [done|].
  destruct s as [|c' s].
  - cbn. split; [done|]. by apply N.eqb_neq.
  - change (has_pair a b (c :: c' :: s))
      with (((c =? a) && (c' =? b)) || has_pair a b (c' :: s)).
    change (ends_with_char a (c :: c' :: s)) with (ends_with_char a (c' :: s)).
    rewrite IH1, IH2. by rewrite (proj2 (N.eqb_neq c a) Hc).
Qed.

Lemma uint_digits_are_digits d :
  Forall (fun c => c <> 60) (uint_digits d).
Proof. induction d; cbn; constructor; done. Qed.

Lemma zero_padded_without_lt width n :
  Forall (fun c => c <> 60) (zero_padded width n).
Proof.
  unfold zero_padded. apply Forall_app. split.
  - apply Forall_replicate. done.
  - apply uint_digits_are_digits.
Qed.

Lemma strftime_seconds_without_lt d :
  Forall (fun c => c <> 60) (strftime_seconds d).
Proof.
  unfold strftime_seconds, strftime_minutes.
  repeat first [ apply zero_padded_without_lt
               | apply uint_digits_are_digits
               | apply Forall_app; split
               | by repeat constructor ].
Qed.

Section Page.

Variable fromtimestamp : Z -> stamp.

Lemma render_post_title p :
  occurs_in (lit "<h2>" ++ post_title p ++ lit "</h2>")
            (render_post fromtimestamp p).
Proof.
  unfold render_post.
  do 2 apply occurs_in_app_r. apply occurs_in_app_l.
  exists (lit "        "), nl. by rewrite <- !app_assoc.
Qed.

Lemma render_post_text p :
  occurs_in (lit "<p>" ++ post_text p ++ lit "</p>")
            (render_post fromtimestamp p).
Proof.
  unfold render_post.
  do 8 apply occurs_in_app_r. apply occurs_in_app_l.
  exists (lit "            "), nl. by rewrite <- !app_assoc.
Qed.

Lemma render_post_block_open p :
  occurs_in block_open (render_post fromtimestamp p).
Proof.
  unfold render_post.
  apply occurs_in_app_r, occurs_in_app_l, occurs_in_app_r, occurs_in_app_l.
  apply occurs_in_refl.
Qed.

Lemma html_content_posts p posts now :
  p ∈ posts ->
  occurs_in (render_post fromtimestamp p) (html_content fromtimestamp posts now).
Proof.
  intros Hp. unfold html_content.
  destruct posts as [|q posts]; [by apply elem_of_nil in Hp|].
  apply occurs_in_app_r, occurs_in_app_l, occurs_in_concat_map.
  by rewrite sort_newest_first_perm.
Qed.

Lemma html_content_empty now :
  html_content fromtimestamp [] now
  = empty_page_before ++ strftime_seconds now ++ empty_page_after.
Proof.
  unfold html_content, empty_page_before, empty_page_after, page_foot.
  by rewrite <- !app_assoc.
Qed.

Lemma html_content_empty_no_block now :
  ~ occurs_in block_open (html_content fromtimestamp [] now).
Proof.
  intros H. apply occurs_in_has_pair in H.
  rewrite html_content_empty in H.
  rewrite (has_pair_app 60 100 empty_page_before) in H.
  rewrite (has_pair_app 60 100 (strftime_seconds now) empty_page_after) in H.
  destruct (has_pair_without 60 100 _ (strftime_seconds_without_lt now))
    as [H1 H2].
  rewrite H1, H2 in H.
  replace (has_pair 60 100 empty_page_before) with false in H
    by (vm_compute; reflexivity).
  replace (has_pair 60 100 empty_page_after) with false in H
    by (vm_compute; reflexivity).
  replace (ends_with_char 60 empty_page_before) with false in H
    by (vm_compute; reflexivity).
  cbn in H. discriminate H.
Qed.

(** C8.  For an empty list the page is the head, the notice that there are
    no new posts and the foot: the notice is in it and no post block is.  For
    a non-empty list the page holds, between head and foot, one block per
    post, in an order in which a post created at a later time comes before
    every post created at an earlier time; a record that has no creation
    time stands where one created at time 0 would. *)
Theorem page_lists_newest_first (now : datetime) :
  (html_content fromtimestamp [] now
   = page_head ++ no_posts_notice ++ page_foot (strftime_seconds now)
   /\ occurs_in (lit "No new posts found matching criteria in this run.")
                (html_content fromtimestamp [] now)
   /\ ~ occurs_in block_open (html_content fromtimestamp [] now))
  /\ forall posts : list post,
       posts <> [] ->
       exists shown : list post,
         shown ≡ₚ posts
         /\ html_content fromtimestamp posts now
            = page_head ++ concat (map (render_post fromtimestamp) shown)
              ++ page_foot (strftime_seconds now)
         /\ Forall (fun p => occurs_in block_open (render_post fromtimestamp p)) shown
         /\ (forall (i j : nat) p q (t1 t2 : Z),
              shown !! i = Some p -> shown !! j = Some q ->
              post_date p = Some t1 -> post_date q = Some t2 ->
              (t1 < t2)%Z -> (j < i)%nat)
         /\ forall (i j : nat) p q,
              shown !! i = Some p -> shown !! j = Some q ->
              (default 0 (post_date p) < default 0 (post_date q))%Z ->
              (j < i)%nat.
Proof.
  split.
  - split; [reflexivity|]. split; [|apply html_content_empty_no_block].
    unfold html_content. apply occurs_in_app_r, occurs_in_app_l.
    exists (lit "<p>"), (lit "</p>"). reflexivity.
  - intros posts Hne. exists (sort_newest_first posts).
    split; [apply sort_newest_first_perm|]. split.
    + unfold html_content. by destruct posts.
    + split; [apply Forall_forall; intros p _; apply render_post_block_open|].
      assert (Horder : forall (i j : nat) p q,
                sort_newest_first posts !! i = Some p ->
                sort_newest_first posts !! j = Some q ->
                (default 0 (post_date p) < default 0 (post_date q))%Z ->
                (j < i)%nat).
      { intros i j p q Hi Hj Hlt.
        destruct (Nat.lt_trichotomy j i) as [Hji|[->|Hij]]; [done| |].
        - rewrite Hi in Hj. injection Hj as ->. lia.
        - pose proof (StronglySorted_lookup _ (sort_newest_first_sorted posts)
                        i j p q Hi Hj Hij) as Hs.
          unfold newer_or_same, date_key in Hs. lia. }
      split; [|exact Horder].
      intros i j p q t1 t2 Hi Hj Hp Hq Hlt.
      apply (Horder i j p q Hi Hj). rewrite Hp, Hq. exact Hlt.
Qed.

Lemma html_content_title posts now p :
  p ∈ posts ->
  occurs_in (lit "<h2>" ++ post_title p ++ lit "</h2>")
            (html_content fromtimestamp posts now).
Proof.
  intros Hp.
  eapply occurs_in_trans; [apply render_post_title|by apply html_content_posts].
Qed.

Lemma html_content_text posts now p :
  p ∈ posts ->
  occurs_in (lit "<p>" ++ post_text p ++ lit "</p>")
            (html_content fromtimestamp posts now).
Proof.
  intros Hp.
  eapply occurs_in_trans; [apply render_post_text|by apply html_content_posts].
Qed.

(** C10.  The page of a non-empty list holds the title of every post between
    [<h2>] and [</h2>] and its body text between [<p>] and [</p>], character
    for character as they are in the record: nothing is escaped. *)
Theorem page_shows_posts_verbatim (posts : list post) (now : datetime) (p : post) :
  p ∈ posts ->
  occurs_in (lit "<h2>" ++ post_title p ++ lit "</h2>")
            (html_content fromtimestamp posts now)
  /\ occurs_in (lit "<p>" ++ post_text p ++ lit "</p>")
               (html_content fromtimestamp posts now).
Proof.
  intros Hp. split; [by apply html_content_title|by apply html_content_text].
Qed.

End Page.

(** ** The scenario of the specification *)

Example scenario_posts : posts_data scenario_run = [scenario_post].
Proof. vm_compute. reflexivity. Qed.

Example scenario_ids :
  processed_ids scenario_run = {[lit "abc123"; lit "def456"]}.
Proof. vm_compute. reflexivity. Qed.

Example scenario_audio :
  path_exists (env scenario_run) (lit "audio/def456_A_story.mp3") = true
  /\ tts_calls (env scenario_run)
     = [(lit "Title: A story. Story: " ++ story, lit "audio/def456_A_story.mp3")].
Proof. vm_compute. done. Qed.

Lemma filtered_submissions_are_excluded_witness :
  scenario_post ∈ posts_data scenario_run
  /\ (post_id scenario_post ∉ ({[lit "abc123"]} : gset str))
  /\ (50 <= length (post_text scenario_post))%nat.
Proof.
  assert (Hin : scenario_post
                ∈ posts_data (fetch_and_process_posts scenario_hot {[lit "abc123"]}
                                                      (fresh_world [true]))).
  { replace (posts_data _) with [scenario_post] by (vm_compute; reflexivity).
    apply list_elem_of_here. }
  split; [exact Hin|].
  destruct (filtered_submissions_are_excluded _ _ _ _ Hin) as (H1 & _ & H3 & _).
  split; [exact H1|exact H3].
Defined.

Lemma page_shows_posts_verbatim_witness :
  let page := html_content (fun _ => Invalid) [markup_post] (Datetime 2026 11 3 9 5 0) in
  occurs_in (lit "<h2><b>Bold</b> & more</h2>") page
  /\ occurs_in (lit "<p><script>alert(1)</script></p>") page.
Proof.
  apply (page_shows_posts_verbatim (fun _ => Invalid) [markup_post]
                                   (Datetime 2026 11 3 9 5 0) markup_post).
  apply list_elem_of_here.
Defined.

(** * Part IV: further properties *)

(** ** [sanitize_filename]: empty results and names it keeps *)

Lemma lstrip_underscores_nil name :
  lstrip_underscores name = [] <-> Forall (fun c => c = underscore) name.
Proof.
  induction name as [|c rest IH]; [done|]. cbn [lstrip_underscores].
  destruct (N.eqb_spec c underscore) as [->|Hc].
  - rewrite IH. split; [by constructor|by inversion 1].
  - split; [done|]. by inversion 1.
Qed.

Lemma strip_underscores_nil name :
  strip_underscores name = [] <-> Forall (fun c => c = underscore) name.
Proof.
  unfold strip_underscores.
  rewrite <- (reverse_involutive []). split.
  - intros H. apply (inj reverse) in H. rewrite reverse_nil in H.
    apply lstrip_underscores_nil in H. rewrite Forall_reverse in H.
    destruct (lstrip_underscores_spec name) as (k & Hk & Hh).
    destruct (lstrip_underscores name) as [|c m] eqn:E.
    + by apply lstrip_underscores_nil.
    + apply Forall_inv in H. cbn in Hh. congruence.
  - intros H. apply lstrip_underscores_nil in H. rewrite H. reflexivity.
Qed.

Lemma collapse_underscores_keeps name c :
  c ∈ name -> c ∈ collapse_underscores name \/ c = underscore.
Proof.
  induction name as [|d [|d' rest] IH]; intros Hc.
  - by apply elem_of_nil in Hc.
  - by left.
  - change (collapse_underscores (d :: d' :: rest))
      with (if (d =? underscore) && (d' =? underscore)
            then collapse_underscores (d' :: rest)
            else d :: collapse_underscores (d' :: rest)).
    apply elem_of_cons in Hc as [->|Hc].
    + destruct ((d =? underscore) && (d' =? underscore)) eqn:E.
      * right. apply andb_prop in E as [E _]. by apply N.eqb_eq in E.
      * left. left.
    + destruct (IH Hc) as [H|H]; [|by right].
      left. destruct ((d =? underscore) && (d' =? underscore)); [done|by right].
Qed.

Lemma collapse_underscores_all name :
  Forall (fun c => c = underscore) (collapse_underscores name)
  <-> Forall (fun c => c = underscore) name.
Proof.
  split; [|apply collapse_underscores_Forall].
  rewrite !Forall_forall. intros H c Hc.
  destruct (collapse_underscores_keeps name c Hc) as [Hin|Heq]; [by apply H|done].
Qed.

Lemma replace_invalid_all name :
  Forall (fun c => c = underscore) (replace_invalid name)
  <-> Forall (fun c => solid_char c = false) name.
Proof.
  unfold replace_invalid. rewrite Forall_fmap. apply Forall_iff. intros c.
  unfold solid_char, compose. destruct (filename_char c) eqn:E; cbn.
  - rewrite negb_false_iff, N.eqb_eq. done.
  - done.
Qed.

(** X1.  [sanitize_filename] gives the empty string exactly for the names
    without a letter, a digit, a dot or a hyphen (the empty name among
    them). *)
Theorem sanitize_filename_empty (name : str) :
  sanitize_filename name = [] <-> Forall (fun c => solid_char c = false) name.
Proof.
  unfold sanitize_filename, cleaned.
  rewrite <- replace_invalid_all, <- collapse_underscores_all,
    <- strip_underscores_nil.
  destruct (strip_underscores _); [done|]. split; discriminate.
Qed.

Lemma replace_invalid_id name :
  Forall (fun c => filename_char c = true) name -> replace_invalid name = name.
Proof.
  induction 1 as [|c rest Hc _ IH]; [done|].
  cbn [replace_invalid map]. rewrite Hc. f_equal. exact IH.
Qed.

Lemma collapse_underscores_id name :
  no_underscore_run name -> collapse_underscores name = name.
Proof.
  induction name as [|c [|c' rest] IH]; intros Hrun; [done..|].
  change (collapse_underscores (c :: c' :: rest))
    with (if (c =? underscore) && (c' =? underscore)
          then collapse_underscores (c' :: rest)
          else c :: collapse_underscores (c' :: rest)).
  destruct ((c =? underscore) && (c' =? underscore)) eqn:E.
  - apply andb_prop in E as [E1 E2]. apply N.eqb_eq in E1, E2. subst.
    destruct (Hrun 0%nat). done.
  - f_equal. apply IH. intros i Hi. apply (Hrun (S i)). exact Hi.
Qed.

Lemma lstrip_underscores_id name :
  head name <> Some underscore -> lstrip_underscores name = name.
Proof.
  destruct name as [|c rest]; [done|]. cbn. intros H.
  destruct (N.eqb_spec c underscore) as [->|Hc]; done.
Qed.

(** X2.  A name that already has the shape the function aims at (characters
    of the class only, no run of underscores, no underscore at either end, at
    most 100 characters) is returned as it is. *)
Theorem sanitize_filename_keeps_clean_names (name : str) :
  sanitized_spec name -> sanitize_filename name = name.
Proof.
  intros (Hchars & Hrun & Hhead & Hlast & Hlen).
  unfold sanitize_filename, cleaned, strip_underscores.
  rewrite replace_invalid_id by exact Hchars.
  rewrite collapse_underscores_id by exact Hrun.
  rewrite (lstrip_underscores_id name) by exact Hhead.
  rewrite lstrip_underscores_id by (by rewrite head_reverse).
  rewrite reverse_involutive. by apply take_ge.
Qed.

Lemma forallb_Forall (f : N -> bool) (l : str) :
  forallb f l = true -> Forall (fun c => f c = true) l.
Proof.
  intros H. apply Forall_forall. intros c Hc.
  rewrite forallb_forall in H. apply H. by apply list_elem_of_In.
Qed.

Lemma sanitize_filename_keeps_clean_names_witness :
  sanitize_filename (lit "My_post-v2.final") = lit "My_post-v2.final".
Proof.
  apply sanitize_filename_keeps_clean_names.
  split; [apply forallb_Forall; vm_compute; reflexivity|].
  split; [|repeat split; vm_compute; first [discriminate | lia]].
  intros i [H1 H2].
  do 16 (destruct i as [|i]; [vm_compute in H1, H2; congruence|]).
  vm_compute in H1. discriminate H1.
Defined.

(** ** Audio file names *)

Lemma split_at_first_underscore (a b r r' : str) :
  underscore ∉ a -> underscore ∉ b ->
  a ++ underscore :: r = b ++ underscore :: r' -> a = b.
Proof.
  revert b. induction a as [|c a IH]; intros [|d b] Ha Hb H; cbn in H.
  - done.
  - injection H as <- _. exfalso. apply Hb. left.
  - injection H as -> _. exfalso. apply Ha. left.
  - injection H as -> H. f_equal. apply (IH b); [| |done].
    + intros Hin. apply Ha. by right.
    + intros Hin. apply Hb. by right.
Qed.

(** X3.  Submissions whose identifiers hold no underscore (the forum's
    identifiers are base 36) and differ get different audio file names, so the
    reuse of a file on disk never takes the clip of another post. *)
Theorem audio_filename_tells_ids_apart (x y : submission) :
  underscore ∉ sub_id x -> underscore ∉ sub_id y ->
  sub_id x <> sub_id y ->
  audio_filename x <> audio_filename y.
Proof.
  intros Hx Hy Hne Heq. apply Hne. unfold audio_filename in Heq.
  rewrite <- !app_assoc in Heq.
  by apply (split_at_first_underscore _ _ _ _ Hx Hy Heq).
Qed.

Lemma audio_filename_tells_ids_apart_witness :
  audio_filename (sample (lit "abc123")) <> audio_filename (sample (lit "def456")).
Proof.
  apply audio_filename_tells_ids_apart.
  - intros H. apply list_elem_of_In in H. vm_compute in H. intuition discriminate.
  - intros H. apply list_elem_of_In in H. vm_compute in H. intuition discriminate.
  - vm_compute. discriminate.
Defined.

(** ** [generate_tts]: where the retries stop *)

(** X4.  [generate_tts] stops at the first attempt that succeeds: when the
    first success among the next three replies is reply number [k], the
    service is invoked [k + 1] times, the function returns the file name it
    was given and the clip is on disk under the audio directory. *)
Theorem generate_tts_stops_at_success (text filename : str) (w : world) (k : nat) :
  audio_dir_ok w = true ->
  (k < 3)%nat ->
  tts_replies w !! k = Some true ->
  (forall i : nat, (i < k)%nat -> tts_replies w !! i <> Some true) ->
  fst (generate_tts text filename w) = Returned (Some filename)
  /\ tts_calls (snd (generate_tts text filename w))
     = tts_calls w ++ replicate (S k) (narration text, path_join AUDIO_DIR filename)
  /\ path_exists (snd (generate_tts text filename w)) (path_join AUDIO_DIR filename)
     = true
  /\ tts_replies (snd (generate_tts text filename w)) = drop (S k) (tts_replies w).
Proof. exact (generate_tts_first_success text filename w k). Qed.

Lemma generate_tts_stops_at_success_witness :
  let w := fresh_world [false; true; true] in
  fst (generate_tts (lit "Hello") (lit "x.mp3") w) = Returned (Some (lit "x.mp3"))
  /\ tts_calls (snd (generate_tts (lit "Hello") (lit "x.mp3") w))
     = tts_calls w ++ replicate 2 (narration (lit "Hello"),
                                   path_join AUDIO_DIR (lit "x.mp3"))
  /\ path_exists (snd (generate_tts (lit "Hello") (lit "x.mp3") w))
                 (path_join AUDIO_DIR (lit "x.mp3")) = true
  /\ tts_replies (snd (generate_tts (lit "Hello") (lit "x.mp3") w))
     = drop 2 (tts_replies w).
Proof.
  apply (generate_tts_stops_at_success (lit "Hello") (lit "x.mp3")
           (fresh_world [false; true; true]) 1).
  - reflexivity.
  - lia.
  - reflexivity.
  - intros i Hi. assert (i = 0%nat) as -> by lia. cbn. discriminate.
Defined.

(** ** [fetch_and_process_posts]: what a run keeps *)

(** A property of the loop variables that every turn keeps holds at the end
    of the run. *)
Lemma process_all_keeps (P : run -> Prop) (items : list submission) :
  (forall x st, P st -> P (after (process_submission x st))) ->
  forall st, P st -> P (process_all items st).
Proof.
  intros Hstep. induction items as [|x rest IH]; intros st Hst; [done|].
  cbn [process_all]. pose proof (Hstep x st Hst) as H1.
  destruct (process_submission x st) as [s1|s1]; cbn [after] in H1.
  - by apply IH.
  - done.
Qed.

(** One turn and the disk: nothing is removed or replaced, the paths that
    cannot be written stay the same, no path but that of the clip is touched,
    and a submission that is accepted has its clip on disk afterwards. *)
Lemma process_submission_disk x st :
  disk (env st) ⊆ disk (env (after (process_submission x st)))
  /\ readonly (env (after (process_submission x st))) = readonly (env st)
  /\ (forall path, path <> audio_path x ->
                   disk (env (after (process_submission x st))) !! path
                   = disk (env st) !! path)
  /\ (turn_accepts x st (after (process_submission x st)) ->
      path_exists (env (after (process_submission x st))) (audio_path x) = true).
Proof.
  unfold process_submission.
  destruct (skipped x (processed_ids st)) eqn:Hskip.
  { repeat split; try done. intros (H & _). congruence. }
  destruct (path_exists (env st) (audio_path x)) eqn:Hfile.
  { repeat split; done. }
  assert (Habsent : disk (env st) !! audio_path x = None).
  { unfold path_exists in Hfile. apply bool_decide_eq_false in Hfile.
    by apply eq_None_not_Some. }
  assert (Hgrow : forall w' : world,
            (forall path, path <> audio_path x ->
                          disk w' !! path = disk (env st) !! path) ->
            disk (env st) ⊆ disk w').
  { intros w' Hother. apply map_subseteq_spec. intros path f Hf.
    rewrite Hother; [exact Hf|]. intros ->. congruence. }
  assert (Hnot : forall w' : world,
            ~ turn_accepts x st (Run (posts_data st) (processed_ids st) w')).
  { intros w' (_ & Hp & _). cbn [posts_data] in Hp.
    apply (f_equal length) in Hp. rewrite length_app in Hp. cbn in Hp. lia. }
  destruct (audio_dir_ok (env st)) eqn:Hdir.
  - destruct (generate_tts_spec (full_text x) (audio_filename x) (env st) Hdir)
      as (n & r & w' & Hg & _ & _ & _ & _ & Hcase & _ & Hro & Hother).
    fold (audio_path x) in Hcase, Hother. rewrite Hg.
    destruct Hcase as [(-> & _ & Hsome)|(-> & _)].
    + destruct (audio_filename_cons x) as (c & f & E). rewrite E.
      cbn [after env accept].
      split; [by apply Hgrow|]. split; [exact Hro|]. split; [exact Hother|].
      intros _. unfold path_exists. by apply bool_decide_eq_true_2.
    + cbn [after env].
      split; [by apply Hgrow|]. split; [exact Hro|]. split; [exact Hother|].
      intros Hacc. by destruct (Hnot w').
  - rewrite generate_tts_no_directory by exact Hdir. cbn [after env].
    repeat split; try done. intros Hacc. by destruct (Hnot (env st)).
Qed.

Lemma process_all_bounds items : forall st,
  (length (posts_data (process_all items st))
   <= length (posts_data st) + length items)%nat
  /\ (length (tts_calls (env (process_all items st)))
      <= length (tts_calls (env st)) + 3 * length items)%nat.
Proof.
  induction items as [|x rest IH]; intros st; [cbn; lia|].
  cbn [process_all length].
  destruct (process_submission_calls x st) as (n & Hn & Hcalls).
  assert (Hposts : (length (posts_data (after (process_submission x st)))
                    <= length (posts_data st) + 1)%nat).
  { destruct (process_submission_cases x st) as [[-> _]|(_ & -> & _)].
    - lia.
    - rewrite length_app. cbn. lia. }
  destruct (process_submission x st) as [s1|s1]; cbn [after] in *.
  - destruct (IH s1) as [H1 H2]. lia.
  - lia.
Qed.

(** X5.  One run returns at most [POST_LIMIT] (ten) records and invokes the
    speech service at most three times per fetched submission, thirty times
    in all, however long the listing is. *)
Theorem fetch_and_process_posts_bounds (hot : list submission)
    (ids : gset str) (w : world) :
  (length (posts_data (fetch_and_process_posts hot ids w)) <= POST_LIMIT)%nat
  /\ (length (tts_calls (env (fetch_and_process_posts hot ids w)))
      <= length (tts_calls w) + 30)%nat.
Proof.
  unfold fetch_and_process_posts.
  destruct (process_all_bounds (take POST_LIMIT hot) (Run [] ids w)) as [H1 H2].
  cbn [posts_data env length] in *. rewrite length_take in H1, H2.
  unfold POST_LIMIT in *. lia.
Qed.

(** X6.  No two records of the returned list carry the same identifier, also
    when the listing yields a submission twice: the second one meets its
    identifier in the set. *)
Theorem fetch_and_process_posts_no_duplicates (hot : list submission)
    (ids : gset str) (w : world) :
  NoDup (map post_id (posts_data (fetch_and_process_posts hot ids w))).
Proof.
  unfold fetch_and_process_posts.
  apply (process_all_keeps
    (fun st => NoDup (map post_id (posts_data st))
               /\ forall i, i ∈ map post_id (posts_data st) -> i ∈ processed_ids st)).
  - intros x st [Hnd Hin].
    destruct (process_submission_cases x st) as [[-> ->]|(Hs & -> & ->)]; [done|].
    apply skipped_false in Hs as (Hx & _).
    rewrite map_app. cbn [map accepted post_id]. split.
    + apply NoDup_app. split; [done|]. split; [|apply NoDup_singleton].
      intros i Hi Hi'. apply list_elem_of_singleton in Hi'. subst i.
      by apply Hx, Hin.
    + intros i Hi. apply elem_of_app in Hi as [Hi|Hi].
      * apply elem_of_union_r. by apply Hin.
      * apply list_elem_of_singleton in Hi. subst i. set_solver.
  - cbn. split; [constructor|]. intros i Hi. by apply elem_of_nil in Hi.
Qed.

Lemma returned_ids hot ids w :
  processed_ids (fetch_and_process_posts hot ids w)
  = ids ∪ list_to_set (map post_id (posts_data (fetch_and_process_posts hot ids w))).
Proof.
  unfold fetch_and_process_posts.
  apply (process_all_keeps
    (fun st => processed_ids st
               = ids ∪ list_to_set (map post_id (posts_data st)))).
  - intros x st Hst.
    destruct (process_submission_cases x st) as [[-> ->]|(_ & -> & ->)]; [done|].
    rewrite Hst, map_app, list_to_set_app_L. cbn [map accepted post_id].
    set_solver.
  - cbn. set_solver.
Qed.

(** X7.  The returned set is exactly the given set with the identifiers of
    the returned records: the run adds no identifier without a record. *)
Theorem fetch_and_process_posts_exact_ids (hot : list submission)
    (ids : gset str) (w : world) :
  processed_ids (fetch_and_process_posts hot ids w)
  = ids ∪ list_to_set (map post_id (posts_data (fetch_and_process_posts hot ids w))).
Proof. exact (returned_ids hot ids w). Qed.

Lemma process_all_order items : forall st,
  exists new,
    posts_data (process_all items st) = posts_data st ++ new
    /\ sublist new (map (fun x => accepted x (audio_filename x)) items).
Proof.
  induction items as [|x rest IH]; intros st.
  - exists []. cbn. by rewrite app_nil_r.
  - cbn [process_all map].
    assert (Hone : exists new0,
      posts_data (after (process_submission x st)) = posts_data st ++ new0
      /\ sublist new0 [accepted x (audio_filename x)]).
    { destruct (process_submission_cases x st) as [[-> _]|(_ & -> & _)].
      - exists []. rewrite app_nil_r. split; [done|]. apply sublist_nil_l.
      - by eexists. }
    destruct Hone as (new0 & Hposts & Hsub).
    destruct (process_submission x st) as [s1|s1]; cbn [after] in *.
    + destruct (IH s1) as (new1 & Hposts1 & Hsub1).
      exists (new0 ++ new1). split; [by rewrite Hposts1, Hposts, app_assoc|].
      by apply (sublist_app new0 [_] new1 _).
    + exists new0. split; [done|].
      etrans; [exact Hsub|]. apply sublist_skip, sublist_nil_l.
Qed.

(** X8.  The records come back in the order of the listing: the returned list
    is what is left of the first ten submissions, each turned into its
    record, after taking some of them out. *)
Theorem fetch_and_process_posts_keeps_order (hot : list submission)
    (ids : gset str) (w : world) :
  sublist (posts_data (fetch_and_process_posts hot ids w))
          (map (fun x => accepted x (audio_filename x)) (take POST_LIMIT hot)).
Proof.
  unfold fetch_and_process_posts.
  destruct (process_all_order (take POST_LIMIT hot) (Run [] ids w))
    as (new & -> & Hsub).
  exact Hsub.
Qed.

Lemma path_exists_mono (w w' : world) path :
  disk w ⊆ disk w' -> path_exists w path = true -> path_exists w' path = true.
Proof.
  unfold path_exists. intros Hsub H. apply bool_decide_eq_true in H as [f Hf].
  apply bool_decide_eq_true_2. exists f. by eapply lookup_weaken.
Qed.

Lemma returned_files hot ids w :
  disk w ⊆ disk (env (fetch_and_process_posts hot ids w))
  /\ readonly (env (fetch_and_process_posts hot ids w)) = readonly w
  /\ forall p, p ∈ posts_data (fetch_and_process_posts hot ids w) ->
       path_exists (env (fetch_and_process_posts hot ids w))
                   (path_join AUDIO_DIR (post_audio_file p)) = true.
Proof.
  unfold fetch_and_process_posts.
  apply (process_all_keeps
    (fun st => disk w ⊆ disk (env st)
               /\ readonly (env st) = readonly w
               /\ forall p, p ∈ posts_data st ->
                    path_exists (env st) (path_join AUDIO_DIR (post_audio_file p))
                    = true)).
  - intros x st (Hsub & Hro & Hfiles).
    destruct (process_submission_disk x st) as (Hgrow & Hro' & _ & Hnew).
    split; [by etrans|]. split; [congruence|].
    destruct (process_submission_cases x st) as [[Hp _]|Hacc].
    + rewrite Hp. intros p Hin. eapply path_exists_mono; [exact Hgrow|].
      by apply Hfiles.
    + pose proof Hacc as (_ & Hp & _). rewrite Hp. intros p Hin.
      apply elem_of_app in Hin as [Hin|Hin].
      * eapply path_exists_mono; [exact Hgrow|]. by apply Hfiles.
      * apply list_elem_of_singleton in Hin. subst p. by apply Hnew.
  - cbn. split; [done|]. split; [done|]. intros p Hp. by apply elem_of_nil in Hp.
Qed.

(** X9.  A run never removes or replaces a file and never changes which
    paths can be written; and the clip of every record it returns is on disk
    when it ends. *)
Theorem fetch_and_process_posts_files (hot : list submission)
    (ids : gset str) (w : world) :
  disk w ⊆ disk (env (fetch_and_process_posts hot ids w))
  /\ readonly (env (fetch_and_process_posts hot ids w)) = readonly w
  /\ forall p, p ∈ posts_data (fetch_and_process_posts hot ids w) ->
       path_exists (env (fetch_and_process_posts hot ids w))
                   (path_join AUDIO_DIR (post_audio_file p)) = true.
Proof. exact (returned_files hot ids w). Qed.

Lemma audio_path_head x :
  head (audio_path x) = Some 47 \/ head (audio_path x) = Some 97.
Proof.
  unfold audio_path, path_join.
  destruct (audio_filename x) as [|c f] eqn:E.
  - right. reflexivity.
  - cbn [starts_with lit]. change (N_of_ascii "/") with 47.
    destruct (N.eqb_spec 47 c) as [<-|Hc]; cbn.
    + by left.
    + by right.
Qed.

(** The speech service and the loop leave the interpreter as it is. *)
Lemma tts_attempts_limit attempts text filepath filename : forall w,
  recursion_limit (snd (tts_attempts attempts text filepath filename w))
  = recursion_limit w.
Proof.
  induction attempts as [|a rest IH]; intros w; [reflexivity|].
  cbn [tts_attempts].
  assert (Hs : recursion_limit (snd (synthesize text filepath w))
               = recursion_limit w).
  { unfold synthesize. by destruct (tts_replies w) as [|[] l]. }
  destruct (synthesize text filepath w) as [ok w1]. cbn [snd] in Hs.
  destruct ok; [exact Hs|].
  destruct (a =? 2)%nat; [exact Hs|]. by rewrite IH.
Qed.

Lemma process_submission_limit x st :
  recursion_limit (env (after (process_submission x st)))
  = recursion_limit (env st).
Proof.
  unfold process_submission.
  destruct (skipped x (processed_ids st)); [done|].
  destruct (path_exists (env st) (audio_path x)); [done|].
  unfold generate_tts. destruct (audio_dir_ok (env st)); [|done].
  pose proof (tts_attempts_limit (seq 0 3) (narration (full_text x))
                (path_join AUDIO_DIR (audio_filename x)) (audio_filename x)
                (env st)) as H.
  destruct (tts_attempts _ _ _ _ _) as [r w1]. cbn [snd] in H.
  by destruct r as [[|c f]|].
Qed.

Lemma fetch_and_process_posts_limit hot ids w :
  recursion_limit (env (fetch_and_process_posts hot ids w)) = recursion_limit w.
Proof.
  unfold fetch_and_process_posts.
  apply (process_all_keeps
    (fun st => recursion_limit (env st) = recursion_limit w)); [|done].
  intros x st Hst. by rewrite process_submission_limit.
Qed.

Lemma other_paths_untouched hot ids w path :
  head path <> Some 47 -> head path <> Some 97 ->
  disk (env (fetch_and_process_posts hot ids w)) !! path = disk w !! path.
Proof.
  intros H47 H97. unfold fetch_and_process_posts.
  apply (process_all_keeps
    (fun st => disk (env st) !! path = disk w !! path)); [|done].
  intros x st Hst.
  destruct (process_submission_disk x st) as (_ & _ & Hother & _).
  rewrite <- Hst. apply Hother. intros ->.
  destruct (audio_path_head x); congruence.
Qed.

(** X10.  A run writes audio files only: a path that does not start like an
    audio path is on disk after the run exactly as before.  So the store file
    and the page are left alone, and loading the store gives the same before
    and after. *)
Theorem fetch_and_process_posts_writes_audio_only (hot : list submission)
    (ids : gset str) (w : world) :
  (forall path, head path <> Some 47 -> head path <> Some 97 ->
     disk (env (fetch_and_process_posts hot ids w)) !! path = disk w !! path)
  /\ disk (env (fetch_and_process_posts hot ids w)) !! HISTORY_FILE
     = disk w !! HISTORY_FILE
  /\ disk (env (fetch_and_process_posts hot ids w)) !! HTML_FILE
     = disk w !! HTML_FILE
  /\ load_processed_posts (env (fetch_and_process_posts hot ids w))
     = load_processed_posts w.
Proof.
  assert (Hall : forall path, head path <> Some 47 -> head path <> Some 97 ->
     disk (env (fetch_and_process_posts hot ids w)) !! path = disk w !! path)
    by apply other_paths_untouched.
  split; [exact Hall|].
  assert (Hh : disk (env (fetch_and_process_posts hot ids w)) !! HISTORY_FILE
               = disk w !! HISTORY_FILE) by (apply Hall; discriminate).
  split; [exact Hh|]. split; [apply Hall; discriminate|].
  unfold load_processed_posts.
  by rewrite Hh, fetch_and_process_posts_limit.
Qed.

(** ** One run after another *)

Section Rerun.

Variable set_order : gset str -> list str.
Hypothesis set_order_perm : forall X, set_order X ≡ₚ elements X.

(** X11.  When the first run's set is saved to a store file that can be
    written and read, and no identifier holds a high surrogate directly
    followed by a low one, the next run loads that very set and accepts no
    post the first run accepted, whatever its listing yields. *)
Theorem next_run_skips_accepted_posts (hot hot' : list submission)
    (ids : gset str) (w : world) :
  HISTORY_FILE ∉ readonly w ->
  disk w !! HISTORY_FILE <> Some Unreadable ->
  (forall i, i ∈ ids -> json_stable i) ->
  (forall x, x ∈ hot -> json_stable (sub_id x)) ->
  let r1 := fetch_and_process_posts hot ids w in
  let w2 := save_processed_posts set_order (processed_ids r1) (env r1) in
  load_processed_posts w2 = Returned (Ids (processed_ids r1))
  /\ forall p1 p2,
       p1 ∈ posts_data r1 ->
       p2 ∈ posts_data (fetch_and_process_posts hot' (processed_ids r1) w2) ->
       post_id p1 <> post_id p2.
Proof.
  intros Hw Hr Hids Hhot r1 w2. split.
  - apply (save_then_load set_order set_order_perm).
    + destruct (returned_files hot ids w) as (_ & Hro & _).
      unfold r1. by rewrite Hro.
    + unfold r1. by rewrite other_paths_untouched.
    + intros i Hi. unfold r1 in Hi. rewrite returned_ids in Hi.
      apply elem_of_union in Hi as [Hi|Hi]; [by apply Hids|].
      apply elem_of_list_to_set, list_elem_of_fmap in Hi as (p & -> & Hp).
      destruct (returned_post_origin hot ids w p Hp) as (_ & x & Hx & -> & _).
      cbn [accepted post_id]. apply Hhot. by eapply subseteq_take.
  - intros p1 p2 Hp1 Hp2 Heq.
    destruct (returned_post_origin _ _ _ _ Hp2) as (_ & x & _ & -> & Hout & _).
    apply Hout. cbn [accepted post_id] in Heq. rewrite <- Heq.
    by destruct (returned_post_origin hot ids w p1 Hp1) as [Hin _].
Qed.

End Rerun.

Lemma next_run_skips_accepted_posts_witness :
  let r1 := fetch_and_process_posts scenario_hot {[lit "abc123"]} (fresh_world [true]) in
  let w2 := save_processed_posts elements (processed_ids r1) (env r1) in
  load_processed_posts w2 = Returned (Ids (processed_ids r1))
  /\ forall p1 p2,
       p1 ∈ posts_data r1 ->
       p2 ∈ posts_data (fetch_and_process_posts scenario_hot (processed_ids r1) w2) ->
       post_id p1 <> post_id p2.
Proof.
  apply (next_run_skips_accepted_posts elements).
  - intros X. reflexivity.
  - vm_compute. intros H. discriminate H.
  - vm_compute. discriminate.
  - intros i Hi. apply elem_of_elements in Hi. revert i Hi.
    apply Forall_forall, json_stable_all_check. vm_compute. reflexivity.
  - apply Forall_forall. unfold scenario_hot.
    repeat constructor; apply json_stable_check; vm_compute; reflexivity.
Defined.

(** ** The page *)

Lemma insert_newest_filter (k : Z) p l :
  filter (fun q => date_key q = k) (insert_newest p l)
  = filter (fun q => date_key q = k) (p :: l).
Proof.
  induction l as [|q l IH]; [done|]. cbn [insert_newest].
  destruct (Z.ltb_spec (date_key p) (date_key q)); [|done].
  rewrite filter_cons, IH, !filter_cons.
  destruct (decide (date_key q = k)), (decide (date_key p = k)); try done.
  lia.
Qed.

(** X12.  The sort of the page is stable: the posts that share a creation
    time stand on the page in the order they had in the list. *)
Theorem sort_newest_first_stable (k : Z) (l : list post) :
  filter (fun q => date_key q = k) (sort_newest_first l)
  = filter (fun q => date_key q = k) l.
Proof.
  induction l as [|p l IH]; [done|].
  cbn [sort_newest_first foldr]. rewrite insert_newest_filter.
  fold (sort_newest_first l). by rewrite !filter_cons, IH.
Qed.

Lemma path_join_audio (f : str) :
  head f <> Some 47 -> path_join AUDIO_DIR f = lit "audio/" ++ f.
Proof.
  intros Hf. unfold path_join. destruct f as [|c f]; [reflexivity|].
  cbn [starts_with lit]. change (N_of_ascii "/") with 47.
  destruct (N.eqb_spec 47 c) as [<-|Hc]; [done|]. reflexivity.
Qed.

Lemma audio_filename_head x :
  head (sub_id x) <> Some 47 -> head (audio_filename x) <> Some 47.
Proof.
  unfold audio_filename. destruct (sub_id x) as [|c i]; [discriminate|done].
Qed.

Section Players.

Variable fromtimestamp : Z -> stamp.

Lemma render_post_audio p :
  occurs_in (lit "<audio controls src=" ++ dq ++ lit "audio/"
             ++ post_audio_file p ++ dq ++ lit ">")
            (render_post fromtimestamp p).
Proof.
  unfold render_post.
  do 3 apply occurs_in_app_r. apply occurs_in_app_l.
  exists (lit "        "), nl. by rewrite <- !app_assoc.
Qed.

(** X13.  On the page made from the result of a run, the audio element of
    every post points at [audio/] followed by its file name, and that file is
    on disk when the run ends, provided no identifier of the listing starts
    with a slash (a file name that starts with one is saved under the root,
    not under the audio directory). *)
Theorem page_players_have_files (hot : list submission) (ids : gset str)
    (w : world) (now : datetime) (p : post) :
  (forall x, x ∈ hot -> head (sub_id x) <> Some 47) ->
  p ∈ posts_data (fetch_and_process_posts hot ids w) ->
  occurs_in (lit "<audio controls src=" ++ dq ++ lit "audio/"
             ++ post_audio_file p ++ dq ++ lit ">")
            (html_content fromtimestamp
               (posts_data (fetch_and_process_posts hot ids w)) now)
  /\ path_exists (env (fetch_and_process_posts hot ids w))
                 (lit "audio/" ++ post_audio_file p) = true.
Proof.
  intros Hslash Hp. split.
  - eapply occurs_in_trans; [apply render_post_audio|].
    by apply html_content_posts.
  - destruct (returned_files hot ids w) as (_ & _ & Hfiles).
    rewrite <- path_join_audio; [by apply Hfiles|].
    destruct (returned_post_origin hot ids w p Hp) as (_ & x & Hx & -> & _).
    cbn [accepted post_audio_file]. apply audio_filename_head, Hslash.
    by eapply subseteq_take.
Qed.

End Players.

Lemma page_players_have_files_witness :
  occurs_in (lit "<audio controls src=" ++ dq ++ lit "audio/"
             ++ post_audio_file scenario_post ++ dq ++ lit ">")
            (html_content (fun _ => Invalid)
               (posts_data (fetch_and_process_posts scenario_hot {[lit "abc123"]}
                                                    (fresh_world [true])))
               (Datetime 2026 11 3 9 5 0))
  /\ path_exists (env (fetch_and_process_posts scenario_hot {[lit "abc123"]}
                                               (fresh_world [true])))
                 (lit "audio/" ++ post_audio_file scenario_post) = true.
Proof.
  apply page_players_have_files.
  - apply Forall_forall. unfold scenario_hot. repeat constructor; discriminate.
  - replace (posts_data _) with [scenario_post] by (vm_compute; reflexivity).
    apply list_elem_of_here.
Defined.

(** ** A run in which the speech service answers *)

Lemma process_submission_answered x st n :
  service_answers (S n) (env st) ->
  service_answers n (env (after (process_submission x st)))
  /\ (exists st', process_submission x st = Next st')
  /\ (presentable x -> sub_id x ∈ processed_ids (after (process_submission x st))).
Proof.
  intros (Hdir & Hall & Hlen).
  assert (Hweak : service_answers n (env st)) by (split; [done|split; [done|lia]]).
  unfold process_submission.
  destruct (skipped x (processed_ids st)) eqn:Hskip.
  { cbn [after]. split; [exact Hweak|]. split; [by eexists|].
    intros Hx. destruct (decide (sub_id x ∈ processed_ids st)) as [|Hout]; [done|].
    assert (skipped x (processed_ids st) = false) by (by apply skipped_false).
    congruence. }
  destruct (path_exists (env st) (audio_path x)).
  { cbn [after accept env]. split; [exact Hweak|]. split; [by eexists|].
    intros _. cbn. set_solver. }
  destruct (tts_replies (env st)) as [|b l] eqn:E; [cbn in Hlen; lia|].
  apply Forall_cons in Hall as [-> Hl].
  destruct (generate_tts_first_success (full_text x) (audio_filename x)
              (env st) 0 Hdir) as (Hr & _ & _ & Hreplies).
  { lia. } { by rewrite E. } { intros i Hi. lia. }
  destruct (generate_tts_spec (full_text x) (audio_filename x) (env st) Hdir)
    as (m & r & w' & Hg & _ & _ & _ & _ & _ & Hdir' & _).
  rewrite Hg in Hr, Hreplies. cbn [fst snd] in Hr, Hreplies.
  injection Hr as ->. rewrite Hg.
  destruct (audio_filename_cons x) as (c & f & Ef). rewrite Ef.
  cbn [after env accept processed_ids].
  split; [|split; [by eexists|intros _; set_solver]].
  split; [done|]. rewrite Hreplies, E. cbn [drop]. rewrite drop_0.
  split; [done|]. cbn in Hlen. lia.
Qed.

Lemma process_all_answered items : forall st,
  service_answers (length items) (env st) ->
  forall x, x ∈ items -> presentable x ->
            sub_id x ∈ processed_ids (process_all items st).
Proof.
  induction items as [|y rest IH]; intros st Hsvc x Hx Hpres.
  - by apply elem_of_nil in Hx.
  - cbn [process_all].
    destruct (process_submission_answered y st (length rest) Hsvc)
      as (Hsvc1 & [s1 Hnext] & Hy).
    rewrite Hnext in *. cbn [after] in *.
    apply elem_of_cons in Hx as [->|Hx].
    + destruct (process_all_invariant rest s1) as [Hsub _].
      apply Hsub. by apply Hy.
    + by apply IH.
Qed.

(** X14.  When the audio directory is there and the speech service answers
    every call, a run leaves out nothing it could take: every submission
    among the first ten that is not stickied, is a self post and has at least
    50 characters of body text ends up with its identifier in the returned
    set, and, unless the identifier was in the given set, with a record in the
    returned list. *)
Theorem working_service_accepts_all (hot : list submission) (ids : gset str)
    (w : world) (x : submission) :
  service_answers POST_LIMIT w ->
  x ∈ take POST_LIMIT hot ->
  presentable x ->
  sub_id x ∈ processed_ids (fetch_and_process_posts hot ids w)
  /\ (sub_id x ∉ ids ->
      exists p, p ∈ posts_data (fetch_and_process_posts hot ids w)
                /\ post_id p = sub_id x).
Proof.
  intros (Hdir & Hall & Hlen) Hx Hpres.
  assert (Hin : sub_id x ∈ processed_ids (fetch_and_process_posts hot ids w)).
  { unfold fetch_and_process_posts. apply process_all_answered; [|done..].
    split; [done|]. split; [done|]. cbn [env]. rewrite length_take. lia. }
  split; [exact Hin|]. intros Hout.
  rewrite returned_ids in Hin.
  apply elem_of_union in Hin as [Hin|Hin]; [done|].
  apply elem_of_list_to_set, list_elem_of_fmap in Hin as (p & Hp & Hin).
  by exists p.
Qed.

Lemma working_service_accepts_all_witness :
  sub_id (sample (lit "def456"))
  ∈ processed_ids (fetch_and_process_posts scenario_hot {[lit "abc123"]}
                     (fresh_world (replicate 10 true)))
  /\ (sub_id (sample (lit "def456")) ∉ ({[lit "abc123"]} : gset str) ->
      exists p, p ∈ posts_data (fetch_and_process_posts scenario_hot {[lit "abc123"]}
                                  (fresh_world (replicate 10 true)))
                /\ post_id p = sub_id (sample (lit "def456"))).
Proof.
  apply working_service_accepts_all.
  - split; [reflexivity|]. split; [by repeat constructor|]. cbn. unfold POST_LIMIT. lia.
  - unfold scenario_hot. cbn. right. left.
  - repeat split; [discriminate|]. vm_compute. lia.
Defined.

(** ** [generate_html]: writing the page *)

Lemma encodable_app (a b : str) : encodable a -> encodable b -> encodable (a ++ b).
Proof.
  unfold encodable. intros Ha Hb. by rewrite existsb_app, Ha, Hb.
Qed.

Lemma encodable_concat (l : list str) : Forall encodable l -> encodable (concat l).
Proof.
  induction 1 as [|s l Hs _ IH]; [done|]. cbn [concat]. by apply encodable_app.
Qed.

Lemma occurs_in_not_encodable (s t : str) :
  occurs_in s t -> ~ encodable s -> ~ encodable t.
Proof.
  unfold encodable. intros (a & b & ->) Hs Ht.
  rewrite !existsb_app in Ht. apply orb_false_elim in Ht as [_ Ht].
  apply orb_false_elim in Ht as [Ht _]. done.
Qed.

Lemma uint_digits_encodable d : encodable (uint_digits d).
Proof. unfold encodable. induction d; done. Qed.

Lemma zero_padded_encodable width n : encodable (zero_padded width n).
Proof.
  unfold zero_padded. apply encodable_app.
  - unfold encodable. induction (width - length _)%nat; [done|exact IHn0].
  - apply uint_digits_encodable.
Qed.

Lemma strftime_minutes_encodable d : encodable (strftime_minutes d).
Proof.
  unfold strftime_minutes.
  repeat first [ apply zero_padded_encodable | apply uint_digits_encodable
               | apply encodable_app | reflexivity ].
Qed.

Lemma strftime_seconds_encodable d : encodable (strftime_seconds d).
Proof.
  unfold strftime_seconds.
  repeat first [ apply strftime_minutes_encodable | apply zero_padded_encodable
               | apply encodable_app | reflexivity ].
Qed.

Section Writing.

Variable fromtimestamp : Z -> stamp.

Lemma render_post_encodable p :
  post_encodable p -> encodable (render_post fromtimestamp p).
Proof.
  intros (Hid & Htitle & Htext & Hfile & Hurl).
  assert (Hdate : encodable (date_str fromtimestamp p)).
  { unfold date_str, format_date. destruct (post_date p) as [t|]; [|done].
    destruct (fromtimestamp t); [apply strftime_minutes_encodable|done..]. }
  assert (Hlink : encodable (url_link p)).
  { unfold url_link. destruct (post_url p) as [u|]; [|done].
    repeat first [ exact Hurl | apply encodable_app | reflexivity ]. }
  unfold render_post.
  repeat first [ assumption | apply encodable_app | reflexivity ].
Qed.

Lemma html_content_encodable posts now :
  Forall post_encodable posts -> encodable (html_content fromtimestamp posts now).
Proof.
  intros Hposts. unfold html_content.
  apply encodable_app; [by vm_compute|]. apply encodable_app.
  - destruct posts as [|p posts]; [done|].
    apply encodable_concat, Forall_fmap.
    rewrite sort_newest_first_perm.
    eapply Forall_impl; [exact Hposts|]. intros q. apply render_post_encodable.
  - unfold page_foot.
    repeat first [ apply strftime_seconds_encodable | apply encodable_app
                 | reflexivity ].
Qed.

Lemma format_date_Raised p e :
  format_date fromtimestamp p = Raised e
  <-> exists t, post_date p = Some t /\ fromtimestamp t = OutOfRange e.
Proof.
  unfold format_date. destruct (post_date p) as [t|].
  - destruct (fromtimestamp t) as [d| |e'] eqn:E.
    + split; [done|]. intros (t' & [= <-] & H). congruence.
    + split; [done|]. intros (t' & [= <-] & H). congruence.
    + split.
      * intros [= ->]. by exists t.
      * intros (t' & [= <-] & H). congruence.
  - split; [done|]. by intros (t' & H & _).
Qed.

(** The loop over the posts meets no exception exactly when every date is
    in range; the exception it meets is that of one of the dates. *)
Lemma date_error_None (l : list post) :
  date_error fromtimestamp l = None
  <-> Forall (date_in_range fromtimestamp) l.
Proof.
  induction l as [|q l IH]; cbn [date_error]; [done|].
  rewrite Forall_cons. destruct (format_date fromtimestamp q) as [d|e] eqn:E.
  - rewrite IH. split; [|by intros [_ H]]. intros H. split; [|done].
    intros t e Ht He.
    assert (format_date fromtimestamp q = Raised e)
      by (apply format_date_Raised; by exists t).
    congruence.
  - split; [done|]. intros [H _].
    apply format_date_Raised in E as (t & Ht & He). by destruct (H t e).
Qed.

Lemma date_error_Some (l : list post) e :
  date_error fromtimestamp l = Some e ->
  exists p t, p ∈ l /\ post_date p = Some t /\ fromtimestamp t = OutOfRange e.
Proof.
  induction l as [|q l IH]; cbn [date_error]; [done|].
  destruct (format_date fromtimestamp q) as [d|e'] eqn:E.
  - intros H. destruct (IH H) as (p & t & Hp & Ht).
    exists p, t. split; [by right|done].
  - intros [= ->]. apply format_date_Raised in E as (t & Ht & He).
    exists q, t. split; [left|done].
Qed.

Lemma date_error_sorted_None (posts : list post) :
  Forall (date_in_range fromtimestamp) posts ->
  date_error fromtimestamp (sort_newest_first posts) = None.
Proof.
  intros H. apply date_error_None. by rewrite sort_newest_first_perm.
Qed.

(** X15.  When every date of the records is in range, the page file can be
    written and no string of the records holds a surrogate code point,
    [generate_html] returns [True] and writes the whole page to the page
    file; nothing else in the world changes. *)
Theorem generate_html_writes_page (posts : list post) (now : datetime) (w : world) :
  Forall (date_in_range fromtimestamp) posts ->
  HTML_FILE ∉ readonly w ->
  Forall post_encodable posts ->
  generate_html fromtimestamp posts now w
  = (Returned true,
     write_file HTML_FILE (Text (html_content fromtimestamp posts now)) w)
  /\ (disk w !! HTML_FILE <> Some Unreadable ->
      disk (write_file HTML_FILE (Text (html_content fromtimestamp posts now)) w)
        !! HTML_FILE
      = Some (Text (html_content fromtimestamp posts now))).
Proof.
  intros Hdates Hw Hposts. split.
  - unfold generate_html. rewrite date_error_sorted_None by exact Hdates.
    rewrite bool_decide_eq_false_2 by exact Hw.
    by rewrite (html_content_encodable posts now Hposts).
  - intros Hr. unfold write_file. cbn [disk]. by apply put_lookup.
Qed.

(** X16.  When every date of the records is in range and the page file can
    be written, a surrogate code point in the title or the body of one record
    makes [generate_html] end in [UnicodeEncodeError] (the handler catches
    [IOError] only), with the page file opened and left empty. *)
Theorem generate_html_surrogate_raises (posts : list post) (now : datetime)
    (w : world) (p : post) :
  Forall (date_in_range fromtimestamp) posts ->
  HTML_FILE ∉ readonly w ->
  p ∈ posts ->
  ~ encodable (post_title p) \/ ~ encodable (post_text p) ->
  generate_html fromtimestamp posts now w
  = (Raised UnicodeEncodeError, write_file HTML_FILE (Text []) w).
Proof.
  intros Hdates Hw Hp Hbad. unfold generate_html.
  rewrite date_error_sorted_None by exact Hdates.
  rewrite bool_decide_eq_false_2 by exact Hw.
  assert (Hpage : ~ encodable (html_content fromtimestamp posts now)).
  { destruct Hbad as [Hbad|Hbad].
    - eapply occurs_in_not_encodable; [by apply html_content_title|].
      eapply occurs_in_not_encodable; [|exact Hbad].
      by apply occurs_in_app_r, occurs_in_app_l, occurs_in_refl.
    - eapply occurs_in_not_encodable; [by apply html_content_text|].
      eapply occurs_in_not_encodable; [|exact Hbad].
      by apply occurs_in_app_r, occurs_in_app_l, occurs_in_refl. }
  unfold encodable in Hpage.
  by destruct (existsb is_surrogate (html_content fromtimestamp posts now)).
Qed.

(** X17.  A record whose date is out of range for the platform makes
    [generate_html] end in the exception of such a date ([OverflowError] or
    [OSError], which the handler around the formatting does not catch),
    before the page file is opened: the world is as it was. *)
Theorem generate_html_date_raises (posts : list post) (now : datetime)
    (w : world) (p : post) (t : Z) (e : exn) :
  p ∈ posts ->
  post_date p = Some t ->
  fromtimestamp t = OutOfRange e ->
  exists (e' : exn) (q : post) (t' : Z),
    generate_html fromtimestamp posts now w = (Raised e', w)
    /\ q ∈ posts /\ post_date q = Some t' /\ fromtimestamp t' = OutOfRange e'.
Proof.
  intros Hp Ht He. unfold generate_html.
  destruct (date_error fromtimestamp (sort_newest_first posts)) as [e'|] eqn:E.
  - destruct (date_error_Some _ _ E) as (q & t' & Hq & Hqt & Hqe).
    rewrite sort_newest_first_perm in Hq. by exists e', q, t'.
  - exfalso. rewrite date_error_None, sort_newest_first_perm in E.
    rewrite Forall_forall in E. by destruct (E p Hp t e).
Qed.

End Writing.

Lemma generate_html_writes_page_witness :
  generate_html (fun _ => Invalid) [markup_post]
                (Datetime 2026 11 3 9 5 0) (fresh_world [])
  = (Returned true,
     write_file HTML_FILE
       (Text (html_content (fun _ => Invalid) [markup_post] (Datetime 2026 11 3 9 5 0)))
       (fresh_world []))
  /\ (disk (fresh_world []) !! HTML_FILE <> Some Unreadable ->
      disk (write_file HTML_FILE
              (Text (html_content (fun _ => Invalid) [markup_post]
                                  (Datetime 2026 11 3 9 5 0)))
              (fresh_world []))
        !! HTML_FILE
      = Some (Text (html_content (fun _ => Invalid) [markup_post]
                                 (Datetime 2026 11 3 9 5 0)))).
Proof.
  apply generate_html_writes_page.
  - repeat constructor. intros t e _. discriminate.
  - vm_compute. intros H. discriminate H.
  - repeat constructor; vm_compute; reflexivity.
Defined.

Lemma generate_html_surrogate_raises_witness :
  generate_html (fun _ => Invalid) [surrogate_post]
                (Datetime 2026 11 3 9 5 0) (fresh_world [])
  = (Raised UnicodeEncodeError, write_file HTML_FILE (Text []) (fresh_world [])).
Proof.
  apply (generate_html_surrogate_raises (fun _ => Invalid)
           [surrogate_post] (Datetime 2026 11 3 9 5 0) (fresh_world [])
           surrogate_post).
  - repeat constructor. intros t e _. discriminate.
  - vm_compute. intros H. discriminate H.
  - apply list_elem_of_here.
  - left. vm_compute. discriminate.
Defined.

Lemma generate_html_date_raises_witness :
  exists (e' : exn) (q : post) (t' : Z),
    generate_html far_future [markup_post; far_post]
                  (Datetime 2026 11 3 9 5 0) (fresh_world [])
    = (Raised e', fresh_world [])
    /\ q ∈ [markup_post; far_post] /\ post_date q = Some t'
    /\ far_future t' = OutOfRange e'.
Proof.
  apply (generate_html_date_raises far_future
           [markup_post; far_post] (Datetime 2026 11 3 9 5 0) (fresh_world [])
           far_post 100000000000000000000%Z OverflowError).
  - right. left.
  - reflexivity.
  - reflexivity.
Defined.
